(** * cdb64: a constant key/value database with 64-bit offsets

    A shallow embedding of the Go package [cdb64] (hash.go, the tuple
    codec, the reader [CDB] and the [Writer]) together with the proofs of
    its format and lookup properties.

    Conventions of the embedding:
    - a [uint64] or [int64] is a [Z]; every arithmetic operation of the
      source is followed by its wrap-around ([u64], [i64]);
    - a Go [[]byte] is a [slice]: [None] is the nil slice, [Some l] a
      non-nil slice holding the bytes [l];
    - the [io.WriteSeeker] handed to the writer is a [Sink]: an in-memory
      file with a position, as an [*os.File] behaves;
    - loops without a syntactic bound ([for { ... }]) run on fuel; running
      out of fuel is the separate outcome [Timeout], and the theorems show
      where it cannot happen. *)

From Stdlib Require Import ZArith List Lia Bool.
From Stdlib Require Import Strings.Byte.
From stdpp Require Import base list numbers.

Open Scope Z_scope.

Abbreviation byte := Byte.byte.

(** ** Go values *)

(** [[]byte]: the nil slice and the empty slice are different values. *)
Definition slice : Type := option (list byte).

(** [len(s)] *)
Definition len (s : slice) : Z :=
  match s with
  | None => 0
  | Some l => Z.of_nat (length l)
  end.

(** The elements a [range], a [copy] or a [Write] sees. *)
Definition elems (s : slice) : list byte :=
  match s with
  | None => []
  | Some l => l
  end.

(** [uint64(x)] and [int64(x)]: two's complement wrap-around. *)
Definition u64 (z : Z) : Z := z mod 2 ^ 64.
Definition i64 (z : Z) : Z := (z + 2 ^ 63) mod 2 ^ 64 - 2 ^ 63.

(** [uint64(b)] for a byte, and the low byte of an integer. *)
Definition Z_of_byte (b : byte) : Z := Z.of_N (Byte.to_N b).
Definition byte_of_Z (z : Z) : byte :=
  match Byte.of_N (Z.to_N (z mod 256)) with
  | Some b => b
  | None => Byte.x00
  end.

Inductive error : Type :=
| ErrNilArgument   (* "key or value can not be nil." *)
| ErrInvalid       (* os.ErrInvalid *)
| ErrClosed        (* use of a closed file *)
| ErrIO            (* short read, negative offset *)
| ErrPanic.        (* a run-time panic *)

(** Outcome of a call: a value, an error (or panic), or a loop that did
    not stop within its fuel. *)
Inductive result (A : Type) : Type :=
| Ok (a : A)
| Err (e : error)
| Timeout.
Arguments Ok {A} a.
Arguments Err {A} e.
Arguments Timeout {A}.

Definition bind {A B} (r : result A) (k : A -> result B) : result B :=
  match r with
  | Ok a => k a
  | Err e => Err e
  | Timeout => Timeout
  end.

Notation "x <- e ; k" := (bind e (fun x => k))
  (at level 20, e at level 100, k at level 200).
Notation "' pat <- e ; k" := (bind e (fun x => match x with pat => k end))
  (at level 20, pat pattern, e at level 100, k at level 200).

(** ** hash.go *)

Definition start : Z := 5381.

Record cdbHash : Type := mkHash { uint64 : Z }.

Definition newCDBHash : cdbHash := mkHash start.

(** The body of [for _, b := range data]. *)
Fixpoint Write_range (v : Z) (data : list byte) : Z :=
  match data with
  | [] => v
  | b :: rest =>
      Write_range (Z.lxor (u64 (u64 (Z.shiftl v 5) + v)) (Z_of_byte b)) rest
  end.

Definition Write (h : cdbHash) (data : slice) : cdbHash * Z :=
  (mkHash (Write_range (uint64 h) (elems data)), len data).

Definition Sum64 (h : cdbHash) : Z := uint64 h.

Definition Reset (h : cdbHash) : cdbHash := mkHash start.

(** The digest [Get] and [Put] compute: [Reset], [Write(key)], [Sum64]. *)
Definition hash_of (key : slice) : Z :=
  Sum64 (fst (Write (Reset newCDBHash) key)).

(** The hash as the specification words it: a left fold from 5381 with
    the update [((state << 5) + state) XOR b], reduced modulo 2^64. *)
Definition spec_hash_step (state : Z) (b : byte) : Z :=
  (Z.lxor (Z.shiftl state 5 + state) (Z_of_byte b)) mod 2 ^ 64.

Definition spec_hash (data : list byte) : Z :=
  fold_left spec_hash_step data 5381.

(** ** encoding/binary, little endian *)

Fixpoint le_encode (n : nat) (v : Z) : list byte :=
  match n with
  | O => []
  | S n' => byte_of_Z v :: le_encode n' (Z.shiftr v 8)
  end.

Fixpoint le_decode (b : list byte) : Z :=
  match b with
  | [] => 0
  | x :: rest => Z.lor (Z_of_byte x) (Z.shiftl (le_decode rest) 8)
  end.

(** [binary.LittleEndian.PutUint64] and [binary.LittleEndian.Uint64]. *)
Definition PutUint64 (v : Z) : list byte := le_encode 8 v.
Definition Uint64 (b : list byte) : Z := le_decode (take 8 b).

(** ** The byte source and sink

    [Open] and [Create] hand an [*os.File] to the reader and the writer.
    The model keeps what the package observes of it: the content, the
    write position, whether it was closed, and whether its dynamic type
    has the methods the type assertions [.(io.ReaderAt)] and
    [.(io.Closer)] look for. *)

Record Sink : Type := mkSink {
  f_data : list byte;
  f_pos : Z;
  f_closed : bool;
  f_isReaderAt : bool;
  f_isCloser : bool
}.

(** [w.Seek(0, os.SEEK_SET)] *)
Definition Seek0 (f : Sink) : result Sink :=
  if f_closed f then Err ErrClosed
  else Ok (mkSink (f_data f) 0 false (f_isReaderAt f) (f_isCloser f)).

(** [w.Write(p)]: overwrite at the position, growing the file (with
    zero bytes up to the position, when it lies behind the end). *)
Definition File_Write (f : Sink) (p : list byte) : result Sink :=
  if f_closed f then Err ErrClosed
  else
    let at_ := Z.to_nat (f_pos f) in
    Ok (mkSink (take at_ (f_data f)
                  ++ replicate (at_ - length (f_data f)) Byte.x00
                  ++ p ++ drop (at_ + length p) (f_data f))
               (f_pos f + Z.of_nat (length p))
               false (f_isReaderAt f) (f_isCloser f)).

(** [closer.Close()] *)
Definition File_Close (f : Sink) : Sink * result unit :=
  if f_closed f then (f, Err ErrClosed)
  else (mkSink (f_data f) (f_pos f) true (f_isReaderAt f) (f_isCloser f), Ok tt).

(** [r.ReadAt(p, off)] with [len(p) = n]: all [n] bytes or an error. *)
Definition ReadAt (f : Sink) (n : Z) (off : Z) : result (list byte) :=
  if f_closed f then Err ErrClosed
  else if off <? 0 then Err ErrIO
  else if n =? 0 then Ok []
  else if off + n <=? Z.of_nat (length (f_data f))
       then Ok (take (Z.to_nat n) (drop (Z.to_nat off) (f_data f)))
       else Err ErrIO.

(** The file [os.Create] returns: empty, open, an [*os.File]. *)
Definition new_file : Sink := mkSink [] 0 false true true.

(** ** The tuple codec *)

Definition readTuple (r : Sink) (offset : Z) : result (Z * Z) :=
  tuple <- ReadAt r 16 (i64 offset) ;
  let first := Uint64 (take 8 tuple) in
  let second := Uint64 (drop 8 tuple) in
  Ok (first, second).

(** [writeTuple] on the buffered writer: the 16 bytes are appended to
    what the buffer holds. *)
Definition writeTuple (w : list byte) (first second : Z) : list byte :=
  w ++ (PutUint64 first ++ PutUint64 second).

(** ** The reader *)

Definition headerSize : Z := 256 * 8 * 2.

Record table : Type := mkTable { t_offset : Z; t_length : Z }.

Definition zero_table : table := mkTable 0 0.

Abbreviation Header := (list table).

Record CDB : Type := mkCDB {
  reader : Sink;
  hasher : cdbHash;
  header : Header
}.

(** [buf[lo:hi]] *)
Definition sub (buf : list byte) (lo hi : Z) : list byte :=
  take (Z.to_nat (hi - lo)) (drop (Z.to_nat lo) buf).

Definition readHeader (cdb : CDB) : result CDB :=
  buf <- ReadAt (reader cdb) headerSize 0 ;
  Ok (mkCDB (reader cdb) (hasher cdb)
        (map (fun i => let off := i * 16 in
                       mkTable (Uint64 (sub buf off (off + 8)))
                               (Uint64 (sub buf (off + 8) (off + 16))))
             (seqZ 0 256))).

(** [New(reader, nil)]: the default hash function. *)
Definition New (r : Sink) : result CDB :=
  readHeader (mkCDB r newCDBHash (replicate 256 zero_table)).

(** [bytes.Compare] *)
Fixpoint Compare (a b : list byte) : Z :=
  match a, b with
  | [], [] => 0
  | [], _ :: _ => -1
  | _ :: _, [] => 1
  | x :: a', y :: b' =>
      if Z_of_byte x <? Z_of_byte y then -1
      else if Z_of_byte y <? Z_of_byte x then 1
      else Compare a' b'
  end.

(** [getValueAt]: [Ok None] is the nil value of a failed match.
    [make([]byte, n)] panics on every length the runtime refuses to
    allocate; the model has the panic for the lengths that are negative
    as an [int], and for the others goes on to the read, which fails
    when the file has not that many bytes.  A record [Put] wrote has its
    [n] bytes in the file. *)
Definition getValueAt (cdb : CDB) (offset : Z) (expectedKey : slice) : result slice :=
  '(keyLength, valueLength) <- readTuple (reader cdb) offset ;
  if negb (i64 keyLength =? len expectedKey) then Ok None
  else
    let n := u64 (keyLength + valueLength) in
    (* make([]byte, n) panics on a length that is negative as an int *)
    if 2 ^ 63 <=? n then Err ErrPanic
    else
      buf <- ReadAt (reader cdb) n (i64 (u64 (offset + 16))) ;
      (* buf[:keyLength] panics past the end of buf *)
      if n <? keyLength then Err ErrPanic
      else if negb (Compare (take (Z.to_nat keyLength) buf) (elems expectedKey) =? 0)
      then Ok None
      else Ok (Some (drop (Z.to_nat keyLength) buf)).

(** The probing loop of [Get]; every turn takes one unit of fuel.
    [slot] is smaller than [table.length], so [slot + 1] does not wrap. *)
Fixpoint Get_loop (fuel : nat) (cdb : CDB) (key : slice) (hash : Z) (tbl : table)
    (startingSlot slot : Z) : result slice :=
  match fuel with
  | O => Timeout
  | S fuel' =>
      let slotOffset := u64 (t_offset tbl + u64 (16 * slot)) in
      '(slotHash, offset) <- readTuple (reader cdb) slotOffset ;
      if slotHash =? 0 then Ok None
      else
        let next (_ : unit) :=
          let slot' := (slot + 1) mod t_length tbl in
          if slot' =? startingSlot then Ok None
          else Get_loop fuel' cdb key hash tbl startingSlot slot' in
        if slotHash =? hash then
          value <- getValueAt cdb offset key ;
          match value with
          | Some v => Ok (Some v)
          | None => next tt
          end
        else next tt
  end.

(** [Get]: the reader's hasher is reset, fed and read, then the subtable
    is probed.  The hasher is a field of the reader, so the call returns
    the reader with the hasher as the call leaves it. *)
Definition Get (cdb : CDB) (key : slice) : CDB * result slice :=
  let h1 := Reset (hasher cdb) in
  let h2 := fst (Write h1 key) in
  let hash := Sum64 h2 in
  let cdb' := mkCDB (reader cdb) h2 (header cdb) in
  let tbl := nth (Z.to_nat (Z.land hash 255)) (header cdb) zero_table in
  if t_length tbl =? 0 then (cdb', Ok None)
  else
    let startingSlot := Z.shiftr hash 8 mod t_length tbl in
    (cdb', Get_loop (Z.to_nat (t_length tbl)) cdb' key hash tbl startingSlot startingSlot).

(** [CDB.Close] *)
Definition CDB_Close (cdb : CDB) : CDB * result unit :=
  if f_isCloser (reader cdb) then
    let '(f, r) := File_Close (reader cdb) in (mkCDB f (hasher cdb) (header cdb), r)
  else (cdb, Ok tt).

(** ** The writer *)

Record entry : Type := mkEntry { e_hash : Z; e_offset : Z }.

Definition zero_entry : entry := mkEntry 0 0.

(** [finalizeOnce] is the done flag of the [sync.Once]; [bufferedWriter]
    is what the [bufio.Writer] holds and has not yet handed to the file
    ([None] once [finalize] has set the field to nil).  The buffer is
    modelled as flushed only by [Flush]: nothing else writes to the file
    in between, so the content the file ends with is the same. *)
Record Writer : Type := mkWriter {
  writer : Sink;
  entries : list (list entry);
  finalizeOnce : bool;
  bufferedWriter : option (list byte);
  bufferedOffset : Z;
  estimatedFooterSize : Z
}.

(** [NewWriter(writer, nil)] *)
Definition NewWriter (w : Sink) : result Writer :=
  w1 <- Seek0 w ;
  w2 <- File_Write w1 (replicate (Z.to_nat headerSize) Byte.x00) ;
  Ok (mkWriter w2 (replicate 256 []) false (Some []) headerSize 0).

(** [Create(path)]: [os.Create] then [NewWriter]. *)
Definition Create : result Writer := NewWriter new_file.

(** [Put]: the writer as the call leaves it, and the error returned. *)
Definition Put (cdb : Writer) (key value : slice) : Writer * result unit :=
  match key, value with
  | Some _, Some _ =>
      let entrySize := i64 (16 + len key + len value) in
      let hash := hash_of key in
      let tbl := Z.to_nat (Z.land hash 255) in
      let e := mkEntry hash (u64 (bufferedOffset cdb)) in
      let entries' := <[tbl := nth tbl (entries cdb) [] ++ [e]]> (entries cdb) in
      match bufferedWriter cdb with
      | None =>
          (* a write through the nil buffered writer *)
          (mkWriter (writer cdb) entries' (finalizeOnce cdb) None
                    (bufferedOffset cdb) (estimatedFooterSize cdb),
           Err ErrPanic)
      | Some buf =>
          let buf1 := writeTuple buf (u64 (len key)) (u64 (len value)) in
          let buf2 := buf1 ++ elems key in
          let buf3 := buf2 ++ elems value in
          (mkWriter (writer cdb) entries' (finalizeOnce cdb) (Some buf3)
                    (i64 (bufferedOffset cdb + entrySize))
                    (i64 (estimatedFooterSize cdb + 32)),
           Ok tt)
      end
  | _, _ => (cdb, Err ErrNilArgument)
  end.

(** The inner [for { ... }] of [finalize]: the first slot from [slot] on
    whose hash is zero.  Indexing [sorted] out of range panics. *)
Fixpoint probe (fuel : nat) (sorted : list entry) (tableSize slot : Z) : result Z :=
  match fuel with
  | O => Timeout
  | S fuel' =>
      match sorted !! Z.to_nat slot with
      | None => Err ErrPanic
      | Some s =>
          if e_hash s =? 0 then Ok slot
          else probe fuel' sorted tableSize ((slot + 1) mod tableSize)
      end
  end.

(** One turn of [for _, entry := range tableEntries]. *)
Definition place (tableSize : Z) (sorted : list entry) (e : entry) : result (list entry) :=
  if tableSize =? 0 then Err ErrPanic (* integer divide by zero *)
  else
    let slot := Z.shiftr (e_hash e) 8 mod tableSize in
    slot' <- probe (length sorted) sorted tableSize slot ;
    Ok (<[Z.to_nat slot' := e]> sorted).

Fixpoint place_all (tableSize : Z) (sorted : list entry) (tableEntries : list entry)
    : result (list entry) :=
  match tableEntries with
  | [] => Ok sorted
  | e :: rest =>
      sorted' <- place tableSize sorted e ;
      place_all tableSize sorted' rest
  end.

(** [for _, entry := range sorted]: a tuple per slot. *)
Fixpoint write_sorted (buf : list byte) (off : Z) (sorted : list entry) : list byte * Z :=
  match sorted with
  | [] => (buf, off)
  | e :: rest => write_sorted (writeTuple buf (e_hash e) (e_offset e)) (i64 (off + 16)) rest
  end.

(** The turns of the outer loop of [finalize] for the indices [idx], on
    the buffer [buf] and the offset [off] ([cdb.bufferedOffset]). *)
Fixpoint finalize_tables (ents : list (list entry)) (idx : list nat) (index : Header)
    (buf : list byte) (off : Z) : result (Header * list byte * Z) :=
  match idx with
  | [] => Ok (index, buf, off)
  | i :: rest =>
      let tableEntries := nth i ents [] in
      let tableSize := u64 (i64 (Z.shiftl (Z.of_nat (length tableEntries)) 1)) in
      let index' := <[i := mkTable (u64 off) tableSize]> index in
      sorted <- place_all tableSize (replicate (Z.to_nat tableSize) zero_entry) tableEntries ;
      let '(buf', off') := write_sorted buf off sorted in
      finalize_tables ents rest index' buf' off'
  end.

(** The 4096 bytes of the index. *)
Definition encode_header (index : Header) : list byte :=
  concat (map (fun t => PutUint64 (t_offset t) ++ PutUint64 (t_length t)) index).

Definition finalize (cdb : Writer) : Writer * result Header :=
  match bufferedWriter cdb with
  | None =>
      (* every path of the loop and the Flush go through the nil writer *)
      (cdb, Err ErrPanic)
  | Some buf0 =>
      match finalize_tables (entries cdb) (seq 0 256) (replicate 256 zero_table)
              buf0 (bufferedOffset cdb) with
      | Timeout => (cdb, Timeout)
      | Err e => (cdb, Err e)
      | Ok (index, buf, off) =>
          let flushed := File_Write (writer cdb) buf in
          let cdb1 w := mkWriter w (entries cdb) (finalizeOnce cdb) None off
                                 (estimatedFooterSize cdb) in
          match flushed with
          | Timeout => (cdb1 (writer cdb), Timeout)
          | Err e => (cdb1 (writer cdb), Err e)
          | Ok w1 =>
              match Seek0 w1 with
              | Timeout => (cdb1 w1, Timeout)
              | Err e => (cdb1 w1, Err e)
              | Ok w2 =>
                  match File_Write w2 (encode_header index) with
                  | Timeout => (cdb1 w2, Timeout)
                  | Err e => (cdb1 w2, Err e)
                  | Ok w3 => (cdb1 w3, Ok index)
                  end
              end
          end
      end
  end.

(** [cdb.finalizeOnce.Do(func() { ... = cdb.finalize() })]: the body runs
    only while the flag is down, and the flag is up afterwards. *)
Definition once_finalize (cdb : Writer) : Writer * result (option Header) :=
  if finalizeOnce cdb then (cdb, Ok None)
  else
    let '(cdb', r) := finalize cdb in
    (mkWriter (writer cdb') (entries cdb') true (bufferedWriter cdb')
              (bufferedOffset cdb') (estimatedFooterSize cdb'),
     h <- r ; Ok (Some h)).

(** [Writer.Close] *)
Definition Close (cdb : Writer) : Writer * result unit :=
  let '(cdb1, r) := once_finalize cdb in
  match r with
  | Timeout => (cdb1, Timeout)
  | Err e => (cdb1, Err e)
  | Ok _ =>
      if f_isCloser (writer cdb1) then
        let '(f, rc) := File_Close (writer cdb1) in
        (mkWriter f (entries cdb1) (finalizeOnce cdb1) (bufferedWriter cdb1)
                  (bufferedOffset cdb1) (estimatedFooterSize cdb1), rc)
      else (cdb1, Ok tt)
  end.

(** [Writer.Freeze]: [var header Header] stays the zero header when the
    [Once] does not run its body.  The reader is given the file as it is
    at this point and a hasher made by the writer's hash function.  In
    the code the reader holds the [*os.File] of the writer itself; here
    it holds the file as a value, and a [Close] of the writer later on
    does not reach it. *)
Definition Freeze (cdb : Writer) : Writer * result CDB :=
  let '(cdb1, r) := once_finalize cdb in
  match r with
  | Timeout => (cdb1, Timeout)
  | Err e => (cdb1, Err e)
  | Ok h =>
      let header := match h with Some h => h | None => replicate 256 zero_table end in
      if f_isReaderAt (writer cdb1)
      then (cdb1, Ok (mkCDB (writer cdb1) newCDBHash header))
      else (cdb1, Err ErrInvalid)
  end.

(** A run of the writer: [Put] for every pair in turn, stopping at the
    first call that fails. *)
Fixpoint PutAll (cdb : Writer) (kvs : list (slice * slice)) : Writer * result unit :=
  match kvs with
  | [] => (cdb, Ok tt)
  | (k, v) :: rest =>
      match Put cdb k v with
      | (cdb', Ok _) => PutAll cdb' rest
      | (cdb', r) => (cdb', r)
      end
  end.

(** [Open(path)] on the path of a file written before: [os.Open] gives a
    fresh handle on the content, [New] reads the header. *)
Definition Open (f : Sink) : result CDB :=
  New (mkSink (f_data f) 0 false true true).

(** The example of the package: [Create], the puts, [Freeze]; the reader
    handed back. *)
Definition freeze_run (kvs : list (slice * slice)) : result CDB :=
  w0 <- Create ;
  match PutAll w0 kvs with
  | (w1, Ok _) => snd (Freeze w1)
  | (_, Err e) => Err e
  | (_, Timeout) => Timeout
  end.

(** [Create], the puts, [Close], then [Open] on the file written. *)
Definition close_open_run (kvs : list (slice * slice)) : result CDB :=
  w0 <- Create ;
  match PutAll w0 kvs with
  | (w1, Ok _) =>
      match Close w1 with
      | (w2, Ok _) => Open (writer w2)
      | (_, Err e) => Err e
      | (_, Timeout) => Timeout
      end
  | (_, Err e) => Err e
  | (_, Timeout) => Timeout
  end.

(** ** Vocabulary of the statements *)

#[global] Instance byte_eq_dec : EqDecision byte := Byte.byte_eq_dec.

(** The bytes of one record: key length, value length, key, value. *)
Definition record_bytes (kv : list byte * list byte) : list byte :=
  PutUint64 (Z.of_nat (length (fst kv))) ++ PutUint64 (Z.of_nat (length (snd kv)))
    ++ fst kv ++ snd kv.

(** The bytes of one subtable: a tuple per slot. *)
Definition table_bytes (sorted : list entry) : list byte :=
  concat (map (fun e => PutUint64 (e_hash e) ++ PutUint64 (e_offset e)) sorted).

(** A header as [readHeader] or [finalize] makes it: [uint64] fields. *)
Definition wf_table (t : table) : Prop :=
  0 <= t_offset t < 2 ^ 64 /\ 0 <= t_length t < 2 ^ 64.

(** The [d]-th slot of the probe sequence that starts at [home] in a
    subtable of [L] slots. *)
Definition cyc (L home : Z) (d : nat) : Z := (home + Z.of_nat d) mod L.

(** The first [d] slots of the probe sequence from [home] are occupied
    by entries with a non-zero hash that satisfy [P]. *)
Definition chain (sorted : list entry) (L home : Z) (d : nat) (P : entry -> Prop) : Prop :=
  forall d', (d' < d)%nat ->
    exists e, sorted !! Z.to_nat (cyc L home d') = Some e /\ e_hash e <> 0 /\ P e.

(** Number of slots a later entry may still take. *)
Definition free_count (sorted : list entry) : nat :=
  length (filter (fun e => e_hash e = 0) sorted).

(** The buffer after the puts [kvs]: the records in insertion order. *)
Definition records_bytes (kvs : list (list byte * list byte)) : list byte :=
  concat (map record_bytes kvs).

(** The entry [e] stands for the pair [kv]: it carries the hash of the
    key and the offset at which the record of [kv] lies, [buf] being what
    follows the header. *)
Definition rec_at (buf : list byte) (e : entry) (kv : list byte * list byte) : Prop :=
  e_hash e = hash_of (Some (fst kv)) /\
  exists pre post, buf = pre ++ record_bytes kv ++ post
                   /\ e_offset e = headerSize + Z.of_nat (length pre).

(** The subtable of a pair: the low byte of the hash of its key. *)
Definition table_of (kv : list byte * list byte) : nat :=
  Z.to_nat (Z.land (hash_of (Some (fst kv))) 255).

(** The pairs of subtable [i], in insertion order. *)
Definition in_table (i : nat) (kvs : list (list byte * list byte)) :=
  filter (fun kv => table_of kv = i) kvs.

(** Size of the finalized file: header, records, two slots per record. *)
Definition file_size (kvs : list (list byte * list byte)) : Z :=
  headerSize + Z.of_nat (length (records_bytes kvs)) + 32 * Z.of_nat (length kvs).

(** The arguments of the [Put] calls of a run: non-nil slices. *)
Definition puts (kvs : list (list byte * list byte)) : list (slice * slice) :=
  map (fun kv => (Some (fst kv), Some (snd kv))) kvs.

(** Number of entries held for the subtables [idx]. *)
Definition slots_total (ents : list (list entry)) (idx : list nat) : nat :=
  sum_list (map (fun i => length (nth i ents [])) idx).

Definition wf_entry (e : entry) : Prop :=
  0 <= e_hash e < 2 ^ 64 /\ 0 <= e_offset e < 2 ^ 64.

(** The writer after [Create] and the successful puts [kvs]. *)
Record Winv (w : Writer) (kvs : list (list byte * list byte)) : Prop := {
  inv_buf : bufferedWriter w = Some (records_bytes kvs);
  inv_off : bufferedOffset w = headerSize + Z.of_nat (length (records_bytes kvs));
  inv_footer : estimatedFooterSize w = 32 * Z.of_nat (length kvs);
  inv_len : length (entries w) = 256%nat;
  inv_total : slots_total (entries w) (seq 0 256) = length kvs;
  inv_entries : forall i, (i < 256)%nat ->
      Forall2 (rec_at (records_bytes kvs)) (nth i (entries w) []) (in_table i kvs);
  inv_sink : writer w = mkSink (replicate 4096 Byte.x00) 4096 false true true;
  inv_once : finalizeOnce w = false
}.

(** [data] and [index] are the file and the header that finalize makes
    from the puts [kvs]: the encoded header, the records, then for every
    subtable [i] its slots [sorted], placed from the entries [es] of the
    pairs of [i], at the offset the header gives. *)
Record Finalized (kvs : list (list byte * list byte)) (data : list byte)
    (index : Header) : Prop := {
  fin_len : length index = 256%nat;
  fin_size : Z.of_nat (length data) = file_size kvs;
  fin_records : exists tl, data = encode_header index ++ records_bytes kvs ++ tl;
  fin_tables : forall i, (i < 256)%nat ->
    exists es sorted pre post,
      Forall2 (rec_at (records_bytes kvs)) es (in_table i kvs)
      /\ place_all (2 * Z.of_nat (length es))
           (replicate (Z.to_nat (2 * Z.of_nat (length es))) zero_entry) es = Ok sorted
      /\ index !! i = Some (mkTable (headerSize + Z.of_nat (length pre))
                                    (2 * Z.of_nat (length es)))
      /\ data = encode_header index ++ pre ++ table_bytes sorted ++ post
}.

(** One descriptor of the header, as [readHeader] decodes it. *)
Definition decode_table (buf : list byte) (i : Z) : table :=
  let off := i * 16 in
  mkTable (Uint64 (sub buf off (off + 8))) (Uint64 (sub buf (off + 8) (off + 16))).

(** The slot [s] of subtable [i], read the way [Get] reads it. *)
Definition read_slot (c : CDB) (i : nat) (s : Z) : result (Z * Z) :=
  let tbl := nth i (header c) zero_table in
  readTuple (reader c) (u64 (t_offset tbl + u64 (16 * s))).

(** The two readers of a run: the one [Freeze] hands back, and the one
    [Open] makes of the file after [Close]. *)
Definition readers (kvs : list (list byte * list byte)) (c1 c2 : CDB) : Prop :=
  freeze_run (puts kvs) = Ok c1 /\ close_open_run (puts kvs) = Ok c2.

(** Every slot that is not the empty pair holds a record offset at or
    above [headerSize]; [strict] asks for strictly above. *)
Definition offsets_above (strict : bool) (c : CDB) : Prop :=
  forall i s h off,
    (i < 256)%nat -> 0 <= s < t_length (nth i (header c) zero_table) ->
    read_slot c i s = Ok (h, off) -> (h, off) <> (0, 0) ->
    if strict then headerSize < off else headerSize <= off.

(** Sample byte strings: "foo", "bar", "first", "second", and a key of
    13 bytes whose hash is zero. *)
Definition foo : list byte := [Byte.x66; Byte.x6f; Byte.x6f].
Definition bar : list byte := [Byte.x62; Byte.x61; Byte.x72].
Definition first_value : list byte := [Byte.x66; Byte.x69; Byte.x72; Byte.x73; Byte.x74].
Definition second_value : list byte :=
  [Byte.x73; Byte.x65; Byte.x63; Byte.x6f; Byte.x6e; Byte.x64].
Definition zero_key : list byte :=
  [Byte.xa5; Byte.x8c; Byte.x80; Byte.x90; Byte.x04; Byte.x79; Byte.x81;
   Byte.x18; Byte.x65; Byte.x3a; Byte.x83; Byte.xd6; Byte.x12].

(** The writer [Create] returns. *)
Definition created : Writer :=
  mkWriter (mkSink (replicate 4096 Byte.x00) 4096 false true true)
           (replicate 256 []) false (Some []) headerSize 0.

(** ** The rest of hash.go *)

(** [Sum(b)]: [binary.LittleEndian.PutUint64(b, h.Sum64())] stores the
    digest in the first eight bytes of [b], and panics when [b] has
    fewer; [append(b, digest...)] then adds the eight zero bytes of
    [digest].  The value is the content of the slice returned. *)
Definition Sum (h : cdbHash) (b : slice) : result (list byte) :=
  if len b <? 8 then Err ErrPanic
  else Ok ((PutUint64 (Sum64 h) ++ drop 8 (elems b)) ++ replicate 8 Byte.x00).

Definition Size (h : cdbHash) : Z := 8.

Definition BlockSize (h : cdbHash) : Z := 8.

(** ** More vocabulary *)

(** Bytes the records of the puts take: 16 bytes of lengths, the key and
    the value, for each. *)
Definition records_size (kvs : list (list byte * list byte)) : Z :=
  fold_right (fun kv acc => 16 + Z.of_nat (length (fst kv)) + Z.of_nat (length (snd kv)) + acc)
             0 kvs.

(** [Create], the puts: the writer before it is finalized. *)
Definition put_run (kvs : list (slice * slice)) : result Writer :=
  w0 <- Create ;
  match PutAll w0 kvs with
  | (w1, Ok _) => Ok w1
  | (_, Err e) => Err e
  | (_, Timeout) => Timeout
  end.

(** The subtable [Get] selects for a key, and the slot it probes first. *)
Definition table_for (c : CDB) (key : slice) : table :=
  nth (Z.to_nat (Z.land (hash_of key) 255)) (header c) zero_table.

Definition home_slot (c : CDB) (key : slice) : Z :=
  Z.shiftr (hash_of key) 8 mod t_length (table_for c key).

(** Sample readers: a file holding one record between other bytes, and
    a header of 256 descriptors that point behind the end of the file. *)
Definition record_reader : CDB :=
  mkCDB (mkSink (bar ++ record_bytes (foo, bar) ++ foo) 0 false true true) newCDBHash [].

Definition truncated_reader : CDB :=
  mkCDB (mkSink (replicate 4096 Byte.x00) 0 false true true) newCDBHash
        (replicate 256 (mkTable 4096 2)).

Definition ones_file : Sink := mkSink (replicate 4096 Byte.xff) 0 false true true.

Definition ones_reader : CDB :=
  mkCDB ones_file newCDBHash (replicate 256 (mkTable (2 ^ 64 - 1) (2 ^ 64 - 1))).

(** ** Calls of [Get] that overlap *)

(** [Get] works on the hasher of the reader in three calls,
    [cdb.hasher.Reset()], [cdb.hasher.Write(key)] and
    [cdb.hasher.Sum64()], and probes with the hash the third returns.
    [Get_probe] is [Get] from [hash := cdb.hasher.Sum64()] on. *)
Definition Get_probe (cdb : CDB) (key : slice) (hash : Z) : result slice :=
  let tbl := nth (Z.to_nat (Z.land hash 255)) (header cdb) zero_table in
  if t_length tbl =? 0 then Ok None
  else
    let startingSlot := Z.shiftr hash 8 mod t_length tbl in
    Get_loop (Z.to_nat (t_length tbl)) cdb key hash tbl startingSlot startingSlot.

(** A goroutine inside [Get]: the call on the hasher it makes next, or
    what its [Get] has returned. *)
Inductive goroutine : Type :=
  | AtReset (key : slice)
  | AtWrite (key : slice)
  | AtSum64 (key : slice)
  | Returned (r : result slice).

(** The next call of a goroutine, on the reader all goroutines hold:
    [cdb.hasher] is one object, and every call acts on the state the
    call before it left, whichever goroutine made that call.  A call is
    taken as a whole; the goroutines of the Go runtime may also overlap
    inside [Write]. *)
Definition step (cdb : CDB) (g : goroutine) : CDB * goroutine :=
  match g with
  | AtReset key => (mkCDB (reader cdb) (Reset (hasher cdb)) (header cdb), AtWrite key)
  | AtWrite key => (mkCDB (reader cdb) (fst (Write (hasher cdb) key)) (header cdb), AtSum64 key)
  | AtSum64 key => (cdb, Returned (Get_probe cdb key (Sum64 (hasher cdb))))
  | Returned r => (cdb, Returned r)
  end.

(** A schedule names, turn by turn, the goroutine that makes its next
    call. *)
Fixpoint run (cdb : CDB) (gs : list goroutine) (schedule : list nat)
    : CDB * list goroutine :=
  match schedule with
  | [] => (cdb, gs)
  | i :: rest =>
      match gs !! i with
      | None => run cdb gs rest
      | Some g => let '(cdb', g') := step cdb g in run cdb' (<[i := g']> gs) rest
      end
  end.

(** Goroutines that call [Get], one key each, under a schedule: what
    they have returned when the schedule is over. *)
Definition parallel_Get (cdb : CDB) (keys : list slice) (schedule : list nat)
    : list goroutine :=
  snd (run cdb (map AtReset keys) schedule).

(** One call after the other: each goroutine makes its three calls in
    a row, in the order given. *)
Definition one_by_one (order : list nat) : list nat :=
  flat_map (fun i => [i; i; i]) order.

(** * Properties *)

(** ** Integers and bytes *)

Lemma u64_small z : 0 <= z < 2 ^ 64 -> u64 z = z.
Proof. intros H. unfold u64. apply Z.mod_small. lia. Qed.

Lemma i64_small z : - 2 ^ 63 <= z < 2 ^ 63 -> i64 z = z.
Proof. intros H. unfold i64. rewrite Z.mod_small; lia. Qed.

Lemma u64_range z : 0 <= u64 z < 2 ^ 64.
Proof. unfold u64. apply Z.mod_pos_bound. lia. Qed.

Lemma Z_of_byte_range b : 0 <= Z_of_byte b < 256.
Proof.
  unfold Z_of_byte. pose proof (Byte.to_N_bounded b). lia.
Qed.

Lemma Z_of_byte_of_Z z : Z_of_byte (byte_of_Z z) = z mod 256.
Proof.
  unfold Z_of_byte, byte_of_Z.
  pose proof (Z.mod_pos_bound z 256 ltac:(lia)) as Hr.
  destruct (Byte.of_N (Z.to_N (z mod 256))) as [b|] eqn:E.
  - apply Byte.to_of_N in E. rewrite E. lia.
  - apply Byte.of_N_None_iff in E. lia.
Qed.

Lemma Z_of_byte_inj a b : Z_of_byte a = Z_of_byte b -> a = b.
Proof.
  unfold Z_of_byte. intros H.
  assert (E : Byte.to_N a = Byte.to_N b) by lia.
  pose proof (Byte.of_to_N a) as Ha. pose proof (Byte.of_to_N b) as Hb.
  rewrite E in Ha. congruence.
Qed.

Lemma lor_shiftl_8 a x : 0 <= a < 256 -> Z.lor a (Z.shiftl x 8) = a + 256 * x.
Proof.
  intros Ha.
  assert (Hl : Z.land a (Z.shiftl x 8) = 0).
  { apply Z.bits_inj'. intros n Hn. rewrite Z.land_spec, Z.bits_0.
    destruct (Z.ltb_spec n 8).
    - rewrite Z.shiftl_spec_low by lia. apply andb_false_r.
    - replace a with (a mod 2 ^ 8) by (apply Z.mod_small; lia).
      rewrite Z.mod_pow2_bits_high by lia. reflexivity. }
  rewrite <- Z.lxor_lor by exact Hl.
  rewrite <- Z.add_nocarry_lxor by exact Hl.
  rewrite Z.shiftl_mul_pow2 by lia. lia.
Qed.

Lemma length_le_encode n v : length (le_encode n v) = n.
Proof. revert v. induction n; intros; simpl; auto. Qed.

Lemma le_decode_range b : 0 <= le_decode b < 2 ^ (8 * Z.of_nat (length b)).
Proof.
  induction b as [|x b IH]; simpl le_decode; simpl length.
  - simpl. lia.
  - pose proof (Z_of_byte_range x).
    rewrite lor_shiftl_8 by assumption.
    replace (8 * Z.of_nat (S (length b))) with (8 + 8 * Z.of_nat (length b)) by lia.
    rewrite Z.pow_add_r by lia. change (2 ^ 8) with 256. nia.
Qed.

Lemma le_decode_encode n v :
  0 <= v -> le_decode (le_encode n v) = v mod 2 ^ (8 * Z.of_nat n).
Proof.
  revert v. induction n as [|n IH]; intros v Hv.
  - simpl. rewrite Z.mod_1_r. reflexivity.
  - cbn [le_encode le_decode].
    rewrite lor_shiftl_8 by (rewrite Z_of_byte_of_Z; apply Z.mod_pos_bound; lia).
    rewrite Z_of_byte_of_Z, IH by (apply Z.shiftr_nonneg; lia).
    rewrite Z.shiftr_div_pow2 by lia. change (2 ^ 8) with 256.
    replace (8 * Z.of_nat (S n)) with (8 + 8 * Z.of_nat n) by lia.
    rewrite Z.pow_add_r by lia. change (2 ^ 8) with 256.
    rewrite Z.rem_mul_r by lia. lia.
Qed.

Lemma length_PutUint64 v : length (PutUint64 v) = 8%nat.
Proof. apply length_le_encode. Qed.

Lemma Uint64_PutUint64 v rest : 0 <= v < 2 ^ 64 -> Uint64 (PutUint64 v ++ rest) = v.
Proof.
  intros Hv. unfold Uint64.
  rewrite take_app_length' by apply (length_PutUint64 v).
  unfold PutUint64. rewrite le_decode_encode by lia.
  change (8 * Z.of_nat 8) with 64. apply Z.mod_small. exact Hv.
Qed.

Lemma Uint64_range b : 0 <= Uint64 b < 2 ^ 64.
Proof.
  unfold Uint64. pose proof (le_decode_range (take 8 b)) as H.
  assert (Hl : (length (take 8 b) <= 8)%nat) by (rewrite length_take; lia).
  assert (2 ^ (8 * Z.of_nat (length (take 8 b))) <= 2 ^ 64).
  { apply Z.pow_le_mono_r; lia. }
  lia.
Qed.

Lemma Compare_eq a b : Compare a b = 0 <-> a = b.
Proof.
  revert b. induction a as [|x a IH]; intros [|y b]; simpl; try (split; [lia|congruence]).
  - tauto.
  - destruct (Z.ltb_spec (Z_of_byte x) (Z_of_byte y)); [split; [lia|]|].
    + intros E. inversion E. subst. lia.
    + destruct (Z.ltb_spec (Z_of_byte y) (Z_of_byte x)); [split; [lia|]|].
      * intros E. inversion E. subst. lia.
      * rewrite IH. split.
        -- intros ->. f_equal. apply Z_of_byte_inj. lia.
        -- intros E. inversion E. reflexivity.
Qed.

(** ** The hash function *)

Lemma lxor_mod_byte y b :
  0 <= b < 256 -> Z.lxor (y mod 2 ^ 64) b = Z.lxor y b mod 2 ^ 64.
Proof.
  intros Hb. apply Z.bits_inj'. intros n Hn.
  rewrite Z.lxor_spec, !Z.testbit_mod_pow2, Z.lxor_spec by lia.
  destruct (Z.ltb_spec n 64) as [Hlt|Hge]; simpl; [reflexivity|].
  replace b with (b mod 2 ^ 8) by (apply Z.mod_small; simpl; lia).
  rewrite Z.mod_pow2_bits_high by lia. reflexivity.
Qed.

Lemma Write_step v b :
  Z.lxor (u64 (u64 (Z.shiftl v 5) + v)) (Z_of_byte b) = spec_hash_step v b.
Proof.
  unfold spec_hash_step, u64.
  rewrite Z.add_mod_idemp_l by lia.
  apply lxor_mod_byte, Z_of_byte_range.
Qed.

Lemma Write_range_fold data v : Write_range v data = fold_left spec_hash_step data v.
Proof.
  revert v. induction data as [|b data IH]; intros v; simpl; [reflexivity|].
  rewrite Write_step. apply IH.
Qed.

Lemma spec_hash_fold_range data v :
  0 <= v < 2 ^ 64 -> 0 <= fold_left spec_hash_step data v < 2 ^ 64.
Proof.
  revert v. induction data as [|b data IH]; intros v Hv; simpl; [exact Hv|].
  apply IH. unfold spec_hash_step. apply Z.mod_pos_bound. lia.
Qed.

Lemma hash_of_range key : 0 <= hash_of key < 2 ^ 64.
Proof.
  unfold hash_of, Sum64, Write, Reset. simpl.
  rewrite Write_range_fold. apply spec_hash_fold_range. unfold start. lia.
Qed.

Lemma land_255_range h : 0 <= Z.land h 255 < 256.
Proof.
  change 255 with (Z.ones 8). rewrite Z.land_ones by lia.
  apply Z.mod_pos_bound. lia.
Qed.

(** C6: the default hash is the left fold from 5381 whose step is
    [state <- ((state << 5) + state) XOR b] modulo 2^64, for every byte
    string (the nil slice hashing as the empty one). *)
Theorem C6_hash_is_fold (key : slice) : hash_of key = spec_hash (elems key).
Proof.
  unfold hash_of, Sum64, Write, Reset, spec_hash. simpl.
  apply Write_range_fold.
Qed.

(** ** Nil and empty keys *)

Lemma getValueAt_nil cdb offset : getValueAt cdb offset None = getValueAt cdb offset (Some []).
Proof. reflexivity. Qed.

Lemma Get_loop_nil fuel cdb hash tbl startingSlot slot :
  Get_loop fuel cdb None hash tbl startingSlot slot
  = Get_loop fuel cdb (Some []) hash tbl startingSlot slot.
Proof.
  revert slot. induction fuel as [|fuel IH]; intros slot; [reflexivity|].
  cbn [Get_loop].
  destruct (readTuple _ _) as [[slotHash offset]| |]; simpl; try reflexivity.
  rewrite getValueAt_nil, !IH. reflexivity.
Qed.

(** C10: [Get] with the nil key returns what [Get] with the empty byte
    string returns, on every reader: the nil key is not rejected and it
    hashes as the empty key. *)
Theorem C10_Get_nil_key (cdb : CDB) : Get cdb None = Get cdb (Some []).
Proof.
  unfold Get. cbn [Write elems len fst].
  destruct (t_length _ =? 0); [reflexivity|].
  rewrite Get_loop_nil. reflexivity.
Qed.

(** ** [Get] always returns *)

Lemma ReadAt_returns f n off : ReadAt f n off <> Timeout.
Proof.
  unfold ReadAt. repeat (destruct (_ : bool); try discriminate).
Qed.

Lemma readTuple_returns f off : readTuple f off <> Timeout.
Proof.
  unfold readTuple. pose proof (ReadAt_returns f 16 (i64 off)).
  destruct (ReadAt _ _ _); simpl; try discriminate. contradiction.
Qed.

Lemma getValueAt_returns cdb off key : getValueAt cdb off key <> Timeout.
Proof.
  unfold getValueAt. pose proof (readTuple_returns (reader cdb) off).
  destruct (readTuple _ _) as [[kl vl]| |]; simpl; try discriminate; [|contradiction].
  destruct (negb _); [discriminate|].
  destruct (_ <=? _); [discriminate|].
  pose proof (ReadAt_returns (reader cdb) (u64 (kl + vl)) (i64 (u64 (off + 16)))).
  destruct (ReadAt _ _ _); simpl; try discriminate; [|contradiction].
  repeat (destruct (_ : bool); try discriminate).
Qed.

Lemma Get_loop_returns cdb key hash tbl startingSlot :
  0 <= startingSlot < t_length tbl ->
  forall fuel slot j,
    (0 < fuel)%nat -> 0 <= j ->
    Z.of_nat fuel + j = t_length tbl ->
    slot = (startingSlot + j) mod t_length tbl ->
    Get_loop fuel cdb key hash tbl startingSlot slot <> Timeout.
Proof.
  intros Hs. induction fuel as [|fuel IH]; intros slot j Hf Hj Hsum Hslot; [lia|].
  cbn [Get_loop].
  assert (Hnext : (if (slot + 1) mod t_length tbl =? startingSlot
                   then Ok None
                   else Get_loop fuel cdb key hash tbl startingSlot
                          ((slot + 1) mod t_length tbl)) <> Timeout).
  { destruct (Z.eqb_spec ((slot + 1) mod t_length tbl) startingSlot) as [E|NE];
      [discriminate|].
    assert (Hs' : (slot + 1) mod t_length tbl = (startingSlot + (j + 1)) mod t_length tbl).
    { subst slot. rewrite Z.add_mod_idemp_l by lia. f_equal. lia. }
    destruct fuel as [|fuel'].
    - exfalso. apply NE. rewrite Hs'.
      replace (startingSlot + (j + 1)) with (startingSlot + 1 * t_length tbl) by lia.
      rewrite Z.mod_add by lia. apply Z.mod_small. lia.
    - apply (IH _ (j + 1)); solve [lia | exact Hs']. }
  pose proof (readTuple_returns (reader cdb)
                (u64 (t_offset tbl + u64 (16 * slot)))) as Hrt.
  destruct (readTuple _ _) as [[slotHash offset]| |]; simpl; try discriminate;
    [|contradiction].
  destruct (slotHash =? 0); [discriminate|].
  destruct (slotHash =? hash); [|exact Hnext].
  pose proof (getValueAt_returns cdb offset key) as Hgv.
  destruct (getValueAt _ _ _) as [[v|]| |]; simpl; try discriminate;
    [exact Hnext|contradiction].
Qed.

(** On a header of [uint64] fields the probing loop of [Get] stops within
    the fuel it is given: [Get] returns a value or an error. *)
Lemma Get_returns cdb key :
  Forall wf_table (header cdb) -> snd (Get cdb key) <> Timeout.
Proof.
  intros Hwf. unfold Get.
  set (h := Sum64 _). set (tbl := nth _ _ _).
  assert (Ht : wf_table tbl).
  { unfold tbl. destruct (nth_in_or_default (Z.to_nat (Z.land h 255)) (header cdb) zero_table) as [Hin|Hd].
    - rewrite List.Forall_forall in Hwf. apply Hwf. exact Hin.
    - rewrite Hd. unfold wf_table, zero_table. simpl. lia. }
  destruct Ht as [_ Hlen].
  destruct (Z.eqb_spec (t_length tbl) 0) as [E|NE]; simpl; [discriminate|].
  assert (Hst : 0 <= Z.shiftr h 8 mod t_length tbl < t_length tbl)
    by (apply Z.mod_pos_bound; lia).
  apply (Get_loop_returns _ _ _ _ _ Hst _ _ 0); [lia|lia|lia|].
  rewrite Z.add_0_r. symmetry. apply Z.mod_small. exact Hst.
Qed.

(** ** Slot placement at finalize *)

Lemma mod_add_cases L a x :
  0 <= a < L -> 0 <= x < L ->
  (a + x) mod L = a + x \/ (a + x) mod L = a + x - L.
Proof.
  intros Ha Hx. destruct (Z.lt_ge_cases (a + x) L).
  - left. apply Z.mod_small. lia.
  - right. symmetry. apply (Z.mod_unique _ _ 1); lia.
Qed.

Lemma cyc_range L home d : 0 < L -> 0 <= cyc L home d < L.
Proof. intros. unfold cyc. apply Z.mod_pos_bound. lia. Qed.

Lemma cyc_0 L home : 0 <= home < L -> cyc L home 0 = home.
Proof. intros. unfold cyc. rewrite Z.add_0_r. apply Z.mod_small. lia. Qed.

Lemma cyc_S L home d : 0 < L -> (cyc L home d + 1) mod L = cyc L home (S d).
Proof.
  intros. unfold cyc. rewrite Z.add_mod_idemp_l by lia. f_equal. lia.
Qed.

Lemma cyc_shift L home d : 0 < L -> cyc L ((home + 1) mod L) d = cyc L home (S d).
Proof.
  intros. unfold cyc. rewrite Z.add_mod_idemp_l by lia. f_equal. lia.
Qed.

Lemma cyc_not_home L home d :
  0 <= home < L -> (0 < d)%nat -> Z.of_nat d < L -> cyc L home d <> home.
Proof.
  intros Hh Hd HL. unfold cyc.
  destruct (mod_add_cases L home (Z.of_nat d)) as [E|E]; lia.
Qed.

Lemma cyc_inj L home d1 d2 :
  0 <= home < L -> Z.of_nat d1 < L -> Z.of_nat d2 < L ->
  cyc L home d1 = cyc L home d2 -> d1 = d2.
Proof.
  intros Hh H1 H2. unfold cyc.
  destruct (mod_add_cases L home (Z.of_nat d1)) as [E1|E1];
  destruct (mod_add_cases L home (Z.of_nat d2)) as [E2|E2]; lia.
Qed.

Lemma cyc_reach L home f :
  0 <= home < L -> 0 <= f < L ->
  exists d, Z.of_nat d < L /\ cyc L home d = f.
Proof.
  intros Hh Hf. exists (Z.to_nat ((f - home) mod L)).
  pose proof (Z.mod_pos_bound (f - home) L ltac:(lia)).
  split; [lia|]. unfold cyc. rewrite Z2Nat.id by lia.
  rewrite Z.add_mod_idemp_r by lia. replace (home + (f - home)) with f by lia.
  apply Z.mod_small. lia.
Qed.

(** What a successful probe returns: the first free slot of the probe
    sequence. *)
Lemma probe_Ok sorted L :
  0 < L ->
  forall fuel slot s,
    0 <= slot < L ->
    probe fuel sorted L slot = Ok s ->
    exists d, (d < fuel)%nat /\ s = cyc L slot d /\
      (exists e, sorted !! Z.to_nat s = Some e /\ e_hash e = 0) /\
      forall d', (d' < d)%nat ->
        exists e, sorted !! Z.to_nat (cyc L slot d') = Some e /\ e_hash e <> 0.
Proof.
  intros HL. induction fuel as [|fuel IH]; intros slot s Hslot Hp; [discriminate|].
  cbn [probe] in Hp.
  destruct (sorted !! Z.to_nat slot) as [x|] eqn:Hx; [|discriminate].
  destruct (Z.eqb_spec (e_hash x) 0) as [E|NE].
  - inversion Hp; subst s. exists 0%nat. rewrite cyc_0 by lia.
    split; [lia|]. split; [reflexivity|]. split; [eauto|]. intros; lia.
  - apply IH in Hp; [|apply Z.mod_pos_bound; lia].
    destruct Hp as (d & Hd & Hs & Hfree & Hocc).
    exists (S d). rewrite <- cyc_shift by lia.
    split; [lia|]. split; [exact Hs|]. split; [exact Hfree|].
    intros [|d'] Hd'.
    + rewrite cyc_0 by lia. eauto.
    + rewrite <- cyc_shift by lia. apply Hocc. lia.
Qed.

(** A probe finds a free slot whenever there is one within its fuel. *)
Lemma probe_finds sorted L :
  0 < L -> L <= Z.of_nat (length sorted) ->
  forall fuel slot d e,
    0 <= slot < L -> (d < fuel)%nat ->
    sorted !! Z.to_nat (cyc L slot d) = Some e -> e_hash e = 0 ->
    exists s, probe fuel sorted L slot = Ok s.
Proof.
  intros HL Hlen. induction fuel as [|fuel IH]; intros slot d e Hslot Hd He Hz; [lia|].
  cbn [probe].
  destruct (sorted !! Z.to_nat slot) as [x|] eqn:Hx.
  - destruct (Z.eqb_spec (e_hash x) 0) as [E|NE]; [eauto|].
    destruct d as [|d].
    + rewrite cyc_0 in He by lia. congruence.
    + apply (IH _ d e); [apply Z.mod_pos_bound; lia|lia| |exact Hz].
      rewrite cyc_shift by lia. exact He.
  - apply lookup_ge_None in Hx. lia.
Qed.

Lemma free_count_insert sorted i e x :
  sorted !! i = Some x ->
  (free_count sorted <= S (free_count (<[i := e]> sorted)))%nat.
Proof.
  intros Hx. pose proof (lookup_lt_Some _ _ _ Hx) as Hi.
  rewrite insert_take_drop by exact Hi.
  rewrite <- (take_drop_middle sorted i x Hx) at 1.
  unfold free_count. rewrite !list.filter_app, !filter_cons, !length_app.
  repeat case_decide; simpl; lia.
Qed.

Lemma free_count_replicate n : free_count (replicate n zero_entry) = n.
Proof.
  unfold free_count. induction n as [|n IH]; [reflexivity|].
  cbn [replicate]. rewrite filter_cons.
  case_decide as H; simpl in *; [lia|contradiction].
Qed.

Lemma free_count_pos sorted :
  (0 < free_count sorted)%nat ->
  exists i e, sorted !! i = Some e /\ e_hash e = 0.
Proof.
  unfold free_count. intros H.
  destruct (filter (fun e => e_hash e = 0) sorted) as [|e l] eqn:E; [simpl in H; lia|].
  assert (He : e ∈ filter (fun e => e_hash e = 0) sorted) by (rewrite E; left).
  apply list_elem_of_filter in He as [Hz Hin].
  apply list_elem_of_lookup in Hin as [i Hi]. eauto.
Qed.

Lemma place_Ok L sorted e sorted' :
  0 <= L ->
  place L sorted e = Ok sorted' ->
  0 < L /\ exists s x, probe (length sorted) sorted L (Z.shiftr (e_hash e) 8 mod L) = Ok s
    /\ sorted !! Z.to_nat s = Some x /\ e_hash x = 0
    /\ sorted' = <[Z.to_nat s := e]> sorted.
Proof.
  unfold place. intros HL0 H.
  destruct (Z.eqb_spec L 0) as [E|NE]; [discriminate|].
  destruct (probe _ _ _ _) as [s| |] eqn:Hp; simpl in H; try discriminate.
  inversion H; subst sorted'.
  assert (HL : 0 < L) by lia. split; [exact HL|].
  apply probe_Ok in Hp as Hp'; [|exact HL|apply Z.mod_pos_bound; lia].
  destruct Hp' as (d & _ & _ & (x & Hx & Hz) & _).
  eauto 10.
Qed.

Lemma place_length L sorted e sorted' :
  place L sorted e = Ok sorted' -> length sorted' = length sorted.
Proof.
  unfold place. destruct (L =? 0); [discriminate|].
  destruct (probe _ _ _ _); simpl; try discriminate.
  intros H; inversion H. apply length_insert.
Qed.

Lemma place_all_length L es : forall sorted sorted',
  place_all L sorted es = Ok sorted' -> length sorted' = length sorted.
Proof.
  induction es as [|e es IH]; intros sorted sorted' H; simpl in H.
  - inversion H. reflexivity.
  - destruct (place L sorted e) as [s1| |] eqn:Hp; simpl in H; try discriminate.
    rewrite (IH _ _ H). eapply place_length; eauto.
Qed.

(** An occupied slot is never written again. *)
Lemma place_keeps L sorted e sorted' i x :
  0 <= L -> place L sorted e = Ok sorted' ->
  sorted !! i = Some x -> e_hash x <> 0 -> sorted' !! i = Some x.
Proof.
  intros HL Hp Hx Hnz.
  apply place_Ok in Hp as (_ & s & y & _ & Hy & Hz & ->); [|exact HL].
  rewrite list_lookup_insert_ne; [exact Hx|]. intros E. subst i. congruence.
Qed.

Lemma place_all_keeps L es : forall sorted sorted' i x,
  0 <= L -> place_all L sorted es = Ok sorted' ->
  sorted !! i = Some x -> e_hash x <> 0 -> sorted' !! i = Some x.
Proof.
  induction es as [|e es IH]; intros sorted sorted' i x HL H Hx Hnz; simpl in H.
  - inversion H; subst. exact Hx.
  - destruct (place L sorted e) as [s1| |] eqn:Hp; simpl in H; try discriminate.
    eapply IH; eauto. eapply place_keeps; eauto.
Qed.

(** Every slot holds what the array was made with or an entry placed. *)
Lemma place_all_Forall (Q : entry -> Prop) L es : forall sorted sorted',
  place_all L sorted es = Ok sorted' ->
  Forall Q sorted -> Forall Q es -> Forall Q sorted'.
Proof.
  induction es as [|e es IH]; intros sorted sorted' H Hs He; simpl in H.
  - inversion H; subst. exact Hs.
  - destruct (place L sorted e) as [s1| |] eqn:Hp; simpl in H; try discriminate.
    inversion He; subst.
    eapply IH; eauto.
    unfold place in Hp. destruct (L =? 0); [discriminate|].
    destruct (probe _ _ _ _); simpl in Hp; try discriminate.
    inversion Hp. apply Forall_insert; assumption.
Qed.

(** The placement loop stops for every entry while the array has more
    free slots than entries left to place. *)
Lemma place_all_succeeds L es : forall sorted,
  0 < L -> L = Z.of_nat (length sorted) ->
  (length es <= free_count sorted)%nat ->
  (es = [] \/ length es < free_count sorted)%nat ->
  exists sorted', place_all L sorted es = Ok sorted'.
Proof.
  induction es as [|e es IH]; intros sorted HL Hlen Hle Hfree; simpl; [eauto|].
  destruct Hfree as [Hfree|Hfree]; [discriminate|]. simpl in Hfree.
  destruct (free_count_pos sorted ltac:(lia)) as (i & x & Hx & Hz).
  pose proof (lookup_lt_Some _ _ _ Hx) as Hi.
  set (home := Z.shiftr (e_hash e) 8 mod L).
  assert (Hhome : 0 <= home < L) by (apply Z.mod_pos_bound; lia).
  destruct (cyc_reach L home (Z.of_nat i) Hhome ltac:(lia)) as (d & Hd & Hcyc).
  destruct (probe_finds sorted L HL ltac:(lia) (length sorted) home d x Hhome ltac:(lia))
    as [s Hs]; [rewrite Hcyc, Nat2Z.id; exact Hx|exact Hz|].
  unfold place. destruct (Z.eqb_spec L 0); [lia|].
  fold home. rewrite Hs. simpl.
  apply probe_Ok in Hs as (_ & _ & _ & (y & Hy & _) & _); [|lia|lia].
  pose proof (free_count_insert sorted (Z.to_nat s) e y Hy) as Hfc.
  apply IH; [lia|rewrite length_insert; exact Hlen|lia|].
  destruct es; [left; reflexivity|right; simpl in *; lia].
Qed.

Lemma place_all_app L es1 es2 sorted :
  place_all L sorted (es1 ++ es2)
  = (s1 <- place_all L sorted es1 ; place_all L s1 es2).
Proof.
  revert sorted. induction es1 as [|e es1 IH]; intros sorted; simpl; [reflexivity|].
  destruct (place L sorted e); simpl; auto.
Qed.

(** The entry [e] ends at some distance [d] from its home slot, and the
    slots before it on the probe sequence hold entries placed earlier. *)
Lemma place_all_chain (P : entry -> Prop) L es1 e es2 sorted0 sorted' :
  L = Z.of_nat (length sorted0) ->
  place_all L sorted0 (es1 ++ e :: es2) = Ok sorted' ->
  Forall (fun x => e_hash x <> 0 -> P x) sorted0 ->
  Forall (fun x => e_hash x <> 0 -> P x) es1 ->
  e_hash e <> 0 ->
  let home := Z.shiftr (e_hash e) 8 mod L in
  exists d, Z.of_nat d < L /\ chain sorted' L home d P
            /\ sorted' !! Z.to_nat (cyc L home d) = Some e.
Proof.
  intros HL Hall Hs0 Hes1 Hnz home.
  assert (HL0 : 0 <= L) by lia.
  rewrite place_all_app in Hall.
  destruct (place_all L sorted0 es1) as [sorted1| |] eqn:H1; simpl in Hall; try discriminate.
  destruct (place L sorted1 e) as [sorted2| |] eqn:H2; simpl in Hall; try discriminate.
  pose proof (place_all_Forall _ _ _ _ _ H1 Hs0 Hes1) as HQ1.
  pose proof (place_all_length _ _ _ _ H1) as Hlen1.
  apply place_Ok in H2 as (HLpos & s & x & Hprobe & Hx & Hz & ->); [|exact HL0].
  change (Z.shiftr (e_hash e) 8 mod L) with home in Hprobe.
  assert (Hhome : 0 <= home < L) by (apply Z.mod_pos_bound; lia).
  apply probe_Ok in Hprobe as (d & Hd & Hs & _ & Hocc); [|exact HLpos|exact Hhome].
  exists d. split; [lia|]. split.
  - intros d' Hd'. destruct (Hocc d' Hd') as (y & Hy & Hynz).
    exists y. split; [|split; [exact Hynz|]].
    + eapply place_all_keeps; [exact HL0|exact Hall| |exact Hynz].
      rewrite list_lookup_insert_ne; [exact Hy|].
      intros E. assert (E' : cyc L home d = cyc L home d').
      { rewrite <- Hs. pose proof (cyc_range L home d' HLpos).
        assert (0 <= s < L) by (rewrite Hs; apply cyc_range; exact HLpos). lia. }
      apply cyc_inj in E'; lia.
    + rewrite List.Forall_forall in HQ1. apply HQ1; [|exact Hynz].
      apply list_elem_of_In, list_elem_of_lookup. eauto.
  - eapply place_all_keeps; [exact HL0|exact Hall| |exact Hnz].
    rewrite <- Hs. apply list_lookup_insert_eq. eapply lookup_lt_Some; eauto.
Qed.

(** ** Probing a placed subtable *)

Lemma Get_loop_chain cdb key hash tbl sorted (v : list byte) (e : entry) d :
  let L := t_length tbl in
  forall home,
  0 <= home < L ->
  (forall s x, 0 <= s < L -> sorted !! Z.to_nat s = Some x ->
     readTuple (reader cdb) (u64 (t_offset tbl + u64 (16 * s))) = Ok (e_hash x, e_offset x)) ->
  chain sorted L home d
    (fun x => e_hash x = hash -> getValueAt cdb (e_offset x) key = Ok None) ->
  Z.of_nat d < L ->
  sorted !! Z.to_nat (cyc L home d) = Some e ->
  e_hash e = hash -> hash <> 0 ->
  getValueAt cdb (e_offset e) key = Ok (Some v) ->
  forall k j fuel, (j + k = d)%nat -> (k < fuel)%nat ->
    Get_loop fuel cdb key hash tbl home (cyc L home j) = Ok (Some v).
Proof.
  intros L home Hhome Hread Hchain Hd He Hh Hnz Hval.
  assert (HL : 0 < L) by lia.
  induction k as [|k IH]; intros j fuel Hjk Hfuel;
    (destruct fuel as [|fuel]; [lia|]); cbn [Get_loop].
  - replace j with d by lia.
    rewrite (Hread _ e (cyc_range L home d HL) He). simpl.
    rewrite Hh. destruct (Z.eqb_spec hash 0); [contradiction|].
    rewrite Z.eqb_refl, Hval. reflexivity.
  - destruct (Hchain j ltac:(lia)) as (x & Hx & Hxnz & HP).
    rewrite (Hread _ x (cyc_range L home j HL) Hx). simpl.
    destruct (Z.eqb_spec (e_hash x) 0); [contradiction|].
    fold L. rewrite cyc_S by exact HL.
    assert (Hne : (cyc L home (S j) =? home) = false).
    { apply Z.eqb_neq. apply cyc_not_home; lia. }
    rewrite Hne.
    destruct (Z.eqb_spec (e_hash x) hash) as [E|NE].
    + rewrite (HP E). simpl. apply IH; lia.
    + apply IH; lia.
Qed.

(** ** Reading from a known layout *)

Lemma ReadAt_app f pre mid post :
  f_closed f = false -> f_data f = pre ++ mid ++ post ->
  ReadAt f (Z.of_nat (length mid)) (Z.of_nat (length pre)) = Ok mid.
Proof.
  intros Hc Hd. unfold ReadAt. rewrite Hc, Hd.
  destruct (Z.ltb_spec (Z.of_nat (length pre)) 0); [lia|].
  destruct (Z.eqb_spec (Z.of_nat (length mid)) 0) as [E|NE].
  - destruct mid; [reflexivity|simpl in E; lia].
  - rewrite !length_app.
    destruct (Z.leb_spec (Z.of_nat (length pre) + Z.of_nat (length mid))
                (Z.of_nat (length pre + (length mid + length post)))); [|lia].
    rewrite !Nat2Z.id, drop_app_length, take_app_length. reflexivity.
Qed.

Lemma readTuple_at f pre post a b off :
  f_closed f = false ->
  f_data f = pre ++ (PutUint64 a ++ PutUint64 b) ++ post ->
  0 <= a < 2 ^ 64 -> 0 <= b < 2 ^ 64 ->
  off = Z.of_nat (length pre) -> off < 2 ^ 63 ->
  readTuple f off = Ok (a, b).
Proof.
  intros Hc Hd Ha Hb -> Hoff. unfold readTuple.
  rewrite i64_small by lia.
  change 16 with (Z.of_nat (length (PutUint64 a ++ PutUint64 b))).
  rewrite (ReadAt_app f pre _ post Hc Hd). cbn [bind].
  rewrite take_app_length' by apply (length_PutUint64 a).
  rewrite drop_app_length' by apply (length_PutUint64 a).
  rewrite <- (app_nil_r (PutUint64 a)), <- (app_nil_r (PutUint64 b)).
  rewrite !Uint64_PutUint64 by assumption. reflexivity.
Qed.

Lemma length_record_bytes kv :
  Z.of_nat (length (record_bytes kv))
  = 16 + Z.of_nat (length (fst kv)) + Z.of_nat (length (snd kv)).
Proof.
  unfold record_bytes. rewrite !length_app, !length_PutUint64. lia.
Qed.

(** [getValueAt] at the offset of a record: the value when the key is
    the record's, the nil value when it is another key. *)
Lemma getValueAt_record cdb pre post kv key off :
  f_closed (reader cdb) = false ->
  f_data (reader cdb) = pre ++ record_bytes kv ++ post ->
  off = Z.of_nat (length pre) ->
  off + Z.of_nat (length (record_bytes kv)) < 2 ^ 63 ->
  getValueAt cdb off key
  = if decide (elems key = fst kv) then Ok (Some (snd kv)) else Ok None.
Proof.
  destruct kv as [k v]. intros Hc Hd Hoff Hsz.
  rewrite length_record_bytes in Hsz. cbn [fst snd] in *.
  unfold getValueAt.
  assert (Hk : 0 <= Z.of_nat (length k) < 2 ^ 63) by lia.
  assert (Hv : 0 <= Z.of_nat (length v) < 2 ^ 63) by lia.
  rewrite (readTuple_at _ pre (k ++ v ++ post) (Z.of_nat (length k)) (Z.of_nat (length v)) off);
    try assumption; try lia.
  2:{ rewrite Hd. unfold record_bytes. cbn [fst snd]. rewrite <- !app_assoc. reflexivity. }
  cbn [bind]. rewrite i64_small by lia.
  destruct (Z.eqb_spec (Z.of_nat (length k)) (len key)) as [El|NEl]; simpl negb; cbv iota.
  2:{ destruct (decide (elems key = k)) as [E|NE]; [|reflexivity].
      exfalso. apply NEl. subst k. destruct key; reflexivity. }
  rewrite u64_small by lia.
  destruct (Z.leb_spec (2 ^ 63) (Z.of_nat (length k) + Z.of_nat (length v))); [lia|].
  rewrite u64_small by lia. rewrite i64_small by lia.
  assert (Hrd : ReadAt (reader cdb) (Z.of_nat (length k) + Z.of_nat (length v)) (off + 16)
                = Ok (k ++ v)).
  { replace (Z.of_nat (length k) + Z.of_nat (length v)) with (Z.of_nat (length (k ++ v)))
      by (rewrite length_app; lia).
    replace (off + 16)
      with (Z.of_nat (length (pre ++ PutUint64 (Z.of_nat (length k))
                                  ++ PutUint64 (Z.of_nat (length v)))))
      by (rewrite !length_app, !length_PutUint64; lia).
    apply (ReadAt_app _ _ _ post Hc).
    rewrite Hd. unfold record_bytes. cbn [fst snd]. rewrite <- !app_assoc. reflexivity. }
  rewrite Hrd. cbn [bind].
  destruct (Z.ltb_spec (Z.of_nat (length k) + Z.of_nat (length v)) (Z.of_nat (length k))); [lia|].
  rewrite Nat2Z.id, take_app_length, drop_app_length.
  destruct (decide (elems key = k)) as [E|NE].
  - subst k. assert (C : Compare (elems key) (elems key) = 0) by (apply Compare_eq; reflexivity).
    rewrite C. reflexivity.
  - destruct (Z.eqb_spec (Compare k (elems key)) 0) as [C|C]; [|reflexivity].
    apply Compare_eq in C. congruence.
Qed.

(** ** The writer between [Create] and finalize *)

Lemma records_bytes_snoc kvs kv :
  records_bytes (kvs ++ [kv]) = records_bytes kvs ++ record_bytes kv.
Proof.
  unfold records_bytes. rewrite map_app, concat_app. simpl. rewrite app_nil_r. reflexivity.
Qed.

Lemma file_size_snoc kvs kv :
  file_size (kvs ++ [kv]) = file_size kvs + Z.of_nat (length (record_bytes kv)) + 32.
Proof.
  unfold file_size. rewrite records_bytes_snoc, !length_app. simpl. lia.
Qed.

Lemma file_size_app_le kvs kvs' : file_size kvs <= file_size (kvs ++ kvs').
Proof.
  unfold file_size, records_bytes. rewrite map_app, concat_app, !length_app. lia.
Qed.

Lemma rec_at_mono buf more e kv : rec_at buf e kv -> rec_at (buf ++ more) e kv.
Proof.
  intros (Hh & pre & post & Hb & Ho). split; [exact Hh|].
  exists pre, (post ++ more). split; [|exact Ho].
  rewrite Hb, <- !app_assoc. reflexivity.
Qed.

Lemma nth_insert_eq {A} (l : list A) i x d :
  (i < length l)%nat -> nth i (<[i := x]> l) d = x.
Proof. intros H. rewrite nth_lookup, list_lookup_insert_eq by exact H. reflexivity. Qed.

Lemma nth_insert_ne {A} (l : list A) i j x d :
  i <> j -> nth j (<[i := x]> l) d = nth j l d.
Proof. intros H. rewrite !nth_lookup, list_lookup_insert_ne by exact H. reflexivity. Qed.

Lemma slots_total_insert_out ents idx t l :
  t ∉ idx -> slots_total (<[t := l]> ents) idx = slots_total ents idx.
Proof.
  unfold slots_total. induction idx as [|i idx IH]; intros Hn; simpl; [reflexivity|].
  rewrite not_elem_of_cons in Hn. destruct Hn as [Hne Hn].
  rewrite nth_insert_ne by congruence. rewrite IH by exact Hn. reflexivity.
Qed.

Lemma slots_total_insert_in ents idx t e :
  NoDup idx -> t ∈ idx -> (t < length ents)%nat ->
  slots_total (<[t := nth t ents [] ++ [e]]> ents) idx = S (slots_total ents idx).
Proof.
  intros Hnd Hin Ht. induction Hnd as [|i idx Hni Hnd IH].
  - inversion Hin.
  - unfold slots_total in *. cbn [map sum_list sum_list_with].
    destruct (decide (i = t)) as [->|Hne].
    + rewrite nth_insert_eq by exact Ht.
      pose proof (slots_total_insert_out ents idx t (nth t ents [] ++ [e]) Hni) as Ho.
      unfold slots_total in Ho. rewrite Ho, length_app. simpl. lia.
    + rewrite nth_insert_ne by congruence.
      apply elem_of_cons in Hin as [->|Hin]; [contradiction|].
      rewrite IH by exact Hin. lia.
Qed.

Lemma in_table_snoc i kvs kv :
  in_table i (kvs ++ [kv])
  = in_table i kvs ++ (if decide (table_of kv = i) then [kv] else []).
Proof.
  unfold in_table. rewrite list.filter_app, filter_cons, filter_nil. reflexivity.
Qed.

Lemma table_of_lt kv : (table_of kv < 256)%nat.
Proof.
  unfold table_of. pose proof (land_255_range (hash_of (Some (fst kv)))). lia.
Qed.

(** [Put] rejects a nil key and a nil value, and leaves the writer as it
    was; the puts of a run are those of non-nil slices. *)
Lemma Put_nil w key value :
  key = None \/ value = None -> Put w key value = (w, Err ErrNilArgument).
Proof. intros [-> | ->]; [|destruct key]; reflexivity. Qed.

(** One successful [Put]. *)
Lemma Put_inv w kvs k v :
  Winv w kvs -> file_size (kvs ++ [(k, v)]) < 2 ^ 63 ->
  exists w', Put w (Some k) (Some v) = (w', Ok tt) /\ Winv w' (kvs ++ [(k, v)]).
Proof.
  intros [Hbuf Hoff Hfoot Hlen Htot Hents Hsink Honce] Hsz.
  rewrite file_size_snoc, length_record_bytes in Hsz. cbn [fst snd] in Hsz.
  unfold file_size in Hsz.
  assert (Hhs : headerSize = 4096) by reflexivity.
  unfold Put. rewrite Hbuf. eexists. split; [reflexivity|].
  set (kv := (k, v)). set (t := Z.to_nat (Z.land (hash_of (Some k)) 255)).
  assert (Ht : (t < 256)%nat) by apply (table_of_lt kv).
  cbn [len elems].
  rewrite (i64_small (16 + _ + _)) by lia.
  rewrite Hoff, Hfoot.
  rewrite i64_small by lia. rewrite i64_small by lia.
  rewrite !u64_small by lia.
  assert (Hrec : writeTuple (records_bytes kvs) (Z.of_nat (length k)) (Z.of_nat (length v))
                   ++ k ++ v = records_bytes kvs ++ record_bytes kv).
  { unfold writeTuple, record_bytes, kv. cbn [fst snd]. rewrite <- !app_assoc. reflexivity. }
  constructor; cbn [bufferedWriter bufferedOffset estimatedFooterSize entries writer finalizeOnce].
  - rewrite records_bytes_snoc. f_equal. rewrite <- app_assoc. exact Hrec.
  - rewrite records_bytes_snoc, length_app, (Nat2Z.inj_add _ _), length_record_bytes.
    unfold kv. cbn [fst snd]. lia.
  - rewrite length_app. simpl. lia.
  - rewrite length_insert. exact Hlen.
  - rewrite slots_total_insert_in; [rewrite Htot, length_app; simpl; lia|apply NoDup_seq| |lia].
    apply elem_of_seq. lia.
  - intros i Hi. rewrite in_table_snoc, records_bytes_snoc.
    destruct (decide (t = i)) as [<-|Hne].
    + rewrite nth_insert_eq by lia.
      change (table_of kv) with t. rewrite decide_True by reflexivity.
      apply Forall2_app.
      * eapply list.Forall2_impl; [apply Hents; exact Ht|]. intros; apply rec_at_mono; assumption.
      * constructor; [|constructor]. split; [reflexivity|].
        exists (records_bytes kvs), []. rewrite app_nil_r. split; [reflexivity|].
        cbn [e_offset]. reflexivity.
    + rewrite nth_insert_ne by exact Hne.
      change (table_of kv) with t. rewrite decide_False by exact Hne. rewrite app_nil_r.
      eapply list.Forall2_impl; [apply Hents; exact Hi|]. intros; apply rec_at_mono; assumption.
  - exact Hsink.
  - exact Honce.
Qed.

Lemma PutAll_inv kvs : forall w kvs0,
  Winv w kvs0 -> file_size (kvs0 ++ kvs) < 2 ^ 63 ->
  exists w', PutAll w (puts kvs) = (w', Ok tt) /\ Winv w' (kvs0 ++ kvs).
Proof.
  induction kvs as [|[k v] kvs IH]; intros w kvs0 Hinv Hsz.
  - exists w. rewrite app_nil_r. split; [reflexivity|exact Hinv].
  - cbn [puts map PutAll fst snd].
    replace (kvs0 ++ (k, v) :: kvs) with ((kvs0 ++ [(k, v)]) ++ kvs) in *
      by (rewrite <- app_assoc; reflexivity).
    destruct (Put_inv w kvs0 k v Hinv) as (w1 & HP & Hinv1).
    { pose proof (file_size_app_le (kvs0 ++ [(k, v)]) kvs). lia. }
    rewrite HP. apply IH; assumption.
Qed.

Lemma Create_inv : exists w, Create = Ok w /\ Winv w [].
Proof.
  eexists. split; [reflexivity|].
  constructor; try reflexivity.
  intros i Hi. cbn [entries]. rewrite nth_lookup, lookup_replicate_2 by exact Hi.
  constructor.
Qed.

(** ** Finalize *)

Lemma length_table_bytes sorted :
  Z.of_nat (length (table_bytes sorted)) = 16 * Z.of_nat (length sorted).
Proof.
  unfold table_bytes. induction sorted as [|e sorted IH]; [reflexivity|].
  cbn [map concat length]. rewrite !length_app, !length_PutUint64. lia.
Qed.

Lemma table_bytes_app s1 s2 : table_bytes (s1 ++ s2) = table_bytes s1 ++ table_bytes s2.
Proof. unfold table_bytes. rewrite map_app, concat_app. reflexivity. Qed.

Lemma table_bytes_lookup sorted s x :
  sorted !! s = Some x ->
  table_bytes sorted
  = table_bytes (take s sorted)
      ++ (PutUint64 (e_hash x) ++ PutUint64 (e_offset x))
      ++ table_bytes (drop (S s) sorted).
Proof.
  intros Hx. rewrite <- (take_drop_middle sorted s x Hx) at 1.
  rewrite table_bytes_app. reflexivity.
Qed.

Lemma write_sorted_spec sorted : forall buf off,
  - 2 ^ 63 <= off -> off + 16 * Z.of_nat (length sorted) < 2 ^ 63 ->
  write_sorted buf off sorted
  = (buf ++ table_bytes sorted, off + 16 * Z.of_nat (length sorted)).
Proof.
  induction sorted as [|e sorted IH]; intros buf off Hlo Hhi.
  - simpl. rewrite app_nil_r. f_equal. lia.
  - cbn [write_sorted]. cbn [length] in Hhi.
    rewrite i64_small by lia. rewrite IH by lia.
    unfold writeTuple. f_equal.
    + unfold table_bytes. cbn [map concat]. rewrite <- !app_assoc. reflexivity.
    + cbn [length]. lia.
Qed.

Lemma tableSize_eq n :
  2 * Z.of_nat n < 2 ^ 63 -> u64 (i64 (Z.shiftl (Z.of_nat n) 1)) = 2 * Z.of_nat n.
Proof.
  intros H. rewrite Z.shiftl_mul_pow2 by lia. change (2 ^ 1) with 2.
  rewrite i64_small by lia. rewrite u64_small by lia. lia.
Qed.

(** The placement of a subtable stops: the array has twice as many
    slots as there are entries. *)
Lemma place_all_table es :
  exists sorted,
    place_all (2 * Z.of_nat (length es))
      (replicate (Z.to_nat (2 * Z.of_nat (length es))) zero_entry) es = Ok sorted.
Proof.
  destruct es as [|e es]; [simpl; eauto|].
  apply place_all_succeeds.
  - cbn [length]. lia.
  - rewrite length_replicate. lia.
  - rewrite free_count_replicate. lia.
  - right. rewrite free_count_replicate. cbn [length]. lia.
Qed.

Lemma slots_total_cons ents i idx :
  slots_total ents (i :: idx) = (length (nth i ents []) + slots_total ents idx)%nat.
Proof. reflexivity. Qed.

Lemma finalize_tables_spec ents : forall idx index buf off,
  NoDup idx ->
  off = headerSize + Z.of_nat (length buf) ->
  off + 32 * Z.of_nat (slots_total ents idx) < 2 ^ 63 ->
  exists index' tl,
    finalize_tables ents idx index buf off
      = Ok (index', buf ++ tl, headerSize + Z.of_nat (length (buf ++ tl)))
    /\ length index' = length index
    /\ Z.of_nat (length tl) = 32 * Z.of_nat (slots_total ents idx)
    /\ (forall j, j ∉ idx -> index' !! j = index !! j)
    /\ (forall i, i ∈ idx -> (i < length index)%nat ->
          exists sorted pre post,
            place_all (2 * Z.of_nat (length (nth i ents [])))
              (replicate (Z.to_nat (2 * Z.of_nat (length (nth i ents [])))) zero_entry)
              (nth i ents []) = Ok sorted
            /\ index' !! i = Some (mkTable (headerSize + Z.of_nat (length pre))
                                           (2 * Z.of_nat (length (nth i ents []))))
            /\ buf ++ tl = pre ++ table_bytes sorted ++ post).
Proof.
  assert (Hhs : headerSize = 4096) by reflexivity.
  induction idx as [|i idx IH]; intros index buf off Hnd Hoff Hsz.
  - exists index, []. rewrite app_nil_r. cbn [finalize_tables].
    repeat split; try (subst off; reflexivity).
    intros i Hi. inversion Hi.
  - apply list.NoDup_cons in Hnd as [Hni Hnd].
    rewrite slots_total_cons in Hsz.
    set (es := nth i ents []) in *.
    destruct (place_all_table es) as [sorted Hsorted].
    pose proof (place_all_length _ _ _ _ Hsorted) as Hlen.
    rewrite length_replicate in Hlen.
    cbn [finalize_tables]. fold es.
    rewrite tableSize_eq by lia. rewrite Hsorted. cbn [bind].
    rewrite write_sorted_spec by lia.
    rewrite u64_small by lia.
    destruct (IH (<[i := mkTable off (2 * Z.of_nat (length es))]> index)
                 (buf ++ table_bytes sorted)
                 (off + 16 * Z.of_nat (length sorted)) Hnd)
      as (index' & tl & Hft & Hlen' & Htl & Hout & Hin).
    { rewrite length_app, Nat2Z.inj_add, length_table_bytes. lia. }
    { lia. }
    exists index', (table_bytes sorted ++ tl).
    rewrite app_assoc. split; [exact Hft|].
    split; [rewrite Hlen', length_insert; reflexivity|].
    split.
    { rewrite slots_total_cons. fold es.
      rewrite length_app, Nat2Z.inj_add, length_table_bytes. lia. }
    split.
    { intros j Hj. apply not_elem_of_cons in Hj as [Hne Hj].
      rewrite Hout by exact Hj. apply list_lookup_insert_ne. congruence. }
    intros i' Hi' Hlt. apply elem_of_cons in Hi' as [->|Hi'].
    + exists sorted, buf, tl. split; [exact Hsorted|]. split.
      * rewrite Hout by exact Hni. rewrite list_lookup_insert_eq by exact Hlt.
        subst off. reflexivity.
      * rewrite <- app_assoc. reflexivity.
    + destruct (Hin i' Hi') as (sorted' & pre & post & H1 & H2 & H3).
      { rewrite length_insert. exact Hlt. }
      exists sorted', pre, post. repeat split; assumption.
Qed.

Lemma length_encode_header index :
  Z.of_nat (length (encode_header index)) = 16 * Z.of_nat (length index).
Proof.
  unfold encode_header. induction index as [|t index IH]; [reflexivity|].
  cbn [map concat length]. rewrite !length_app, !length_PutUint64. lia.
Qed.

Lemma File_Write_end data p b1 b2 pos :
  pos = Z.of_nat (length data) ->
  File_Write (mkSink data pos false b1 b2) p
  = Ok (mkSink (data ++ p) (pos + Z.of_nat (length p)) false b1 b2).
Proof.
  intros ->. unfold File_Write. cbn [f_closed f_pos f_data f_isReaderAt f_isCloser].
  rewrite Nat2Z.id, take_ge, drop_ge, app_nil_r, Nat.sub_diag by lia. reflexivity.
Qed.

Lemma File_Write_start a rest p b1 b2 :
  length p = length a ->
  File_Write (mkSink (a ++ rest) 0 false b1 b2) p
  = Ok (mkSink (p ++ rest) (Z.of_nat (length p)) false b1 b2).
Proof.
  intros Hl. unfold File_Write. cbn [f_closed f_pos f_data f_isReaderAt f_isCloser].
  change (Z.to_nat 0) with 0%nat. rewrite Nat.add_0_l, Hl, drop_app_length.
  reflexivity.
Qed.

(** What [finalize] leaves: the file of the puts, and its header. *)
Lemma finalize_spec w kvs :
  Winv w kvs -> file_size kvs < 2 ^ 63 ->
  exists index data,
    finalize w = (mkWriter (mkSink data 4096 false true true) (entries w) false None
                           (Z.of_nat (length data)) (estimatedFooterSize w),
                  Ok index)
    /\ Finalized kvs data index.
Proof.
  intros [Hbuf Hoff Hfoot Hlen Htot Hents Hsink Honce] Hsz.
  assert (Hhs : headerSize = 4096) by reflexivity.
  unfold file_size in Hsz.
  destruct (finalize_tables_spec (entries w) (seq 0 256) (replicate 256 zero_table)
              (records_bytes kvs) (bufferedOffset w) (NoDup_seq 0 256) Hoff)
    as (index & tl & Hft & Hilen & Htl & _ & Hin).
  { rewrite Htot. lia. }
  rewrite length_replicate in Hilen. rewrite Htot in Htl.
  pose proof (length_encode_header index) as Hhl. rewrite Hilen in Hhl.
  assert (Hhl' : length (encode_header index) = 4096%nat) by lia.
  exists index, (encode_header index ++ records_bytes kvs ++ tl).
  split.
  - unfold finalize. rewrite Hbuf, Hft, Hsink.
    set (zeros := replicate 4096 Byte.x00).
    assert (Hz : length zeros = 4096%nat) by apply length_replicate.
    rewrite File_Write_end by (rewrite Hz; reflexivity).
    unfold Seek0. cbn [f_closed f_data f_isReaderAt f_isCloser].
    rewrite File_Write_start by (rewrite Hz; exact Hhl').
    rewrite Honce. do 3 f_equal.
    + rewrite Hhl'. reflexivity.
    + rewrite !length_app. rewrite Hhs. lia.
  - constructor.
    + exact Hilen.
    + unfold file_size. rewrite !length_app, !Nat2Z.inj_add. lia.
    + eauto.
    + intros i Hi.
      destruct (Hin i) as (sorted & pre & post & H1 & H2 & H3).
      { apply elem_of_seq. lia. }
      { rewrite length_replicate. exact Hi. }
      exists (nth i (entries w) []), sorted, pre, post.
      split; [apply Hents; exact Hi|]. split; [exact H1|]. split; [exact H2|].
      rewrite H3. reflexivity.
Qed.

(** ** Lookup in a finalized file *)

Lemma hash_of_elems key k : elems key = k -> hash_of key = hash_of (Some k).
Proof. intros <-. destruct key; reflexivity. Qed.

Lemma rec_at_wf buf e kv :
  rec_at buf e kv -> headerSize + Z.of_nat (length buf) < 2 ^ 63 ->
  wf_entry e /\ headerSize <= e_offset e.
Proof.
  intros (Hh & pre & post & Hb & Ho) Hsz.
  assert (Hhs : headerSize = 4096) by reflexivity.
  rewrite Hb, !length_app in Hsz.
  unfold wf_entry. rewrite Hh, Ho.
  pose proof (hash_of_range (Some (fst kv))). lia.
Qed.

(** With the hash zero no slot is a match: the probe ends at a slot
    whose hash is zero or after a full turn, and nothing is found. *)
Lemma Get_loop_zero_None cdb key tbl startingSlot :
  0 <= startingSlot < t_length tbl ->
  (forall s, 0 <= s < t_length tbl ->
     exists h off,
       readTuple (reader cdb) (u64 (t_offset tbl + u64 (16 * s))) = Ok (h, off)) ->
  forall fuel slot j,
    (0 < fuel)%nat -> 0 <= j ->
    Z.of_nat fuel + j = t_length tbl ->
    slot = (startingSlot + j) mod t_length tbl ->
    Get_loop fuel cdb key 0 tbl startingSlot slot = Ok None.
Proof.
  intros Hs Hread. induction fuel as [|fuel IH]; intros slot j Hf Hj Hsum Hslot; [lia|].
  cbn [Get_loop].
  destruct (Hread slot) as (h & off & Hrd).
  { subst slot. apply Z.mod_pos_bound. lia. }
  rewrite Hrd. cbn [bind].
  destruct (Z.eqb_spec h 0) as [E|NE]; [reflexivity|].
  destruct (Z.eqb_spec ((slot + 1) mod t_length tbl) startingSlot) as [E'|NE'];
    [reflexivity|].
  assert (Hs' : (slot + 1) mod t_length tbl = (startingSlot + (j + 1)) mod t_length tbl).
  { subst slot. rewrite Z.add_mod_idemp_l by lia. f_equal. lia. }
  destruct fuel as [|fuel'].
  - exfalso. apply NE'. rewrite Hs'.
    replace (startingSlot + (j + 1)) with (startingSlot + 1 * t_length tbl) by lia.
    rewrite Z.mod_add by lia. apply Z.mod_small. lia.
  - apply (IH _ (j + 1)); solve [lia | exact Hs'].
Qed.

Section Finalized.
Variables (kvs : list (list byte * list byte)) (data : list byte) (index : Header).
Variable cdb : CDB.
Hypothesis Hfin : Finalized kvs data index.
Hypothesis Hsize : file_size kvs < 2 ^ 63.
Hypothesis Hdata : f_data (reader cdb) = data.
Hypothesis Hopen : f_closed (reader cdb) = false.
Hypothesis Hheader : header cdb = index.

Lemma length_header_bytes : length (encode_header index) = 4096%nat.
Proof.
  pose proof (length_encode_header index) as H.
  rewrite (fin_len _ _ _ Hfin) in H. lia.
Qed.

Lemma records_fit : headerSize + Z.of_nat (length (records_bytes kvs)) < 2 ^ 63.
Proof. unfold file_size in Hsize. lia. Qed.

(** Reading the record an entry points to. *)
Lemma getValueAt_entry e kv key :
  rec_at (records_bytes kvs) e kv ->
  getValueAt cdb (e_offset e) key
  = if decide (elems key = fst kv) then Ok (Some (snd kv)) else Ok None.
Proof.
  intros (Hh & pre & post & Hb & Ho).
  destruct (fin_records _ _ _ Hfin) as [tl Htl].
  pose proof length_header_bytes as Hhl.
  pose proof (fin_size _ _ _ Hfin) as Hfs.
  apply (getValueAt_record cdb (encode_header index ++ pre) (post ++ tl)); [exact Hopen| | |].
  - rewrite Hdata, Htl, Hb, <- !app_assoc. reflexivity.
  - rewrite Ho, length_app, Hhl. change headerSize with 4096. lia.
  - rewrite Htl, Hb, !length_app in Hfs. rewrite Ho.
    change headerSize with 4096. lia.
Qed.

(** Reading a slot of a subtable. *)
Lemma readTuple_slot pre sorted post s x :
  data = encode_header index ++ pre ++ table_bytes sorted ++ post ->
  sorted !! Z.to_nat s = Some x -> 0 <= s -> wf_entry x ->
  readTuple (reader cdb) (u64 (headerSize + Z.of_nat (length pre) + u64 (16 * s)))
  = Ok (e_hash x, e_offset x).
Proof.
  intros Hd Hx Hs [Hwh Hwo].
  pose proof length_header_bytes as Hhl.
  pose proof (fin_size _ _ _ Hfin) as Hfs.
  pose proof (lookup_lt_Some _ _ _ Hx) as Hlt.
  rewrite (table_bytes_lookup _ _ _ Hx) in Hd.
  assert (Hts : Z.of_nat (length (table_bytes (take (Z.to_nat s) sorted))) = 16 * s).
  { rewrite length_table_bytes, length_take. lia. }
  rewrite Hd, !length_app, !Nat2Z.inj_add, Hts, !length_PutUint64 in Hfs.
  rewrite (u64_small (16 * s)) by lia. rewrite u64_small by (change headerSize with 4096; lia).
  apply (readTuple_at _ (encode_header index ++ pre ++ table_bytes (take (Z.to_nat s) sorted))
           (table_bytes (drop (S (Z.to_nat s)) sorted) ++ post)); try assumption.
  - rewrite Hdata, Hd, <- !app_assoc. reflexivity.
  - rewrite !length_app, !Nat2Z.inj_add, Hts, Hhl. change headerSize with 4096. lia.
  - change headerSize with 4096. lia.
Qed.

(** The first pair put with the key [k] is what [Get] returns, when
    the hash of [k] is not zero. *)
Lemma Get_first kvs1 k v kvs2 key :
  kvs = kvs1 ++ (k, v) :: kvs2 ->
  Forall (fun kv => fst kv <> k) kvs1 ->
  hash_of (Some k) <> 0 ->
  elems key = k ->
  snd (Get cdb key) = Ok (Some v).
Proof.
  intros Hkvs Hfirst Hnz Hkey.
  set (i := table_of (k, v)).
  assert (Hi : (i < 256)%nat) by apply table_of_lt.
  destruct (fin_tables _ _ _ Hfin i Hi) as (es & sorted & pre & post & Hes & Hplace & Hidx & Hd).
  (* the entries of the subtable, split at the entry of (k, v) *)
  assert (Hsplit : in_table i kvs = in_table i kvs1 ++ (k, v) :: in_table i kvs2).
  { rewrite Hkvs. unfold in_table. rewrite list.filter_app, filter_cons.
    rewrite decide_True by reflexivity. reflexivity. }
  rewrite Hsplit in Hes.
  apply Forall2_app_inv_r in Hes as (es1 & es' & Hes1 & Hes' & ->).
  apply Forall2_cons_inv_r in Hes' as (e & es2 & He & Hes2 & ->).
  pose proof records_fit as Hfit.
  set (L := 2 * Z.of_nat (length (es1 ++ e :: es2))) in *.
  assert (HL : 0 < L) by (unfold L; rewrite length_app; cbn [length]; lia).
  set (hash := hash_of (Some k)) in *.
  assert (Heh : e_hash e = hash) by apply He.
  set (P := fun x : entry => e_hash x = hash -> getValueAt cdb (e_offset x) key = Ok None).
  (* what the slots hold *)
  assert (Hwf : Forall wf_entry sorted).
  { eapply place_all_Forall; [exact Hplace| |].
    - apply Forall_replicate. unfold wf_entry, zero_entry. simpl. lia.
    - apply Forall_app. split; [|constructor].
      + eapply Forall2_Forall_l; [exact Hes1|]. apply Forall_true.
        intros kv x Hx. eapply rec_at_wf; eauto.
      + eapply rec_at_wf; eauto.
      + eapply Forall2_Forall_l; [exact Hes2|]. apply Forall_true.
        intros kv x Hx. eapply rec_at_wf; eauto. }
  destruct (place_all_chain P L es1 e es2 (replicate (Z.to_nat L) zero_entry) sorted)
    as (d & Hd1 & Hchain & Hslot).
  { rewrite length_replicate. lia. }
  { exact Hplace. }
  { apply Forall_replicate. intros Hz. exfalso. apply Hz. reflexivity. }
  { eapply Forall2_Forall_l; [exact Hes1|].
    assert (Hfirst' : Forall (fun kv => fst kv <> k) (in_table i kvs1)).
    { apply list.Forall_forall. intros kv Hin.
      apply list_elem_of_filter in Hin as [_ Hin].
      rewrite list.Forall_forall in Hfirst. apply Hfirst. exact Hin. }
    eapply list.Forall_impl; [exact Hfirst'|]. cbv beta.
    intros kv Hne x Hx _ _. unfold P.
    rewrite (getValueAt_entry x kv key Hx).
    rewrite decide_False; [reflexivity|]. rewrite Hkey. congruence. }
  { rewrite Heh. exact Hnz. }
  cbv zeta in Hchain, Hslot. rewrite Heh in Hchain, Hslot.
  set (home := Z.shiftr hash 8 mod L) in *.
  (* the call *)
  unfold Get. cbn [snd].
  change (Sum64 (fst (Write (Reset (hasher cdb)) key))) with (hash_of key).
  rewrite (hash_of_elems key k Hkey). fold hash.
  rewrite Hheader. rewrite nth_lookup. fold i. unfold i, table_of. cbn [fst]. fold hash.
  fold i in Hidx. unfold i, table_of in Hidx. cbn [fst] in Hidx. fold hash in Hidx.
  rewrite Hidx. unfold default, from_option, id. cbn [t_length]. fold L.
  destruct (Z.eqb_spec L 0) as [E|_]; [lia|]. cbn [snd].
  fold home.
  rewrite <- (cyc_0 L home) at 2 by (apply Z.mod_pos_bound; lia).
  set (cdb' := mkCDB _ _ _). set (tbl := mkTable _ _).
  assert (Hrd : reader cdb' = reader cdb) by reflexivity.
  refine (Get_loop_chain cdb' key hash tbl sorted v e d home
            _ _ _ _ _ _ _ _ d 0%nat (Z.to_nat L) _ _).
  - unfold tbl; cbn [t_length]. apply Z.mod_pos_bound. lia.
  - unfold tbl; cbn [t_length t_offset]. intros s x Hs Hx.
    rewrite Hrd.
    apply (readTuple_slot pre sorted post); [exact Hd|exact Hx|lia|].
    rewrite List.Forall_forall in Hwf. apply Hwf.
    apply list_elem_of_In, list_elem_of_lookup. eauto.
  - exact Hchain.
  - exact Hd1.
  - exact Hslot.
  - exact Heh.
  - exact Hnz.
  - change (getValueAt cdb' (e_offset e) key) with (getValueAt cdb (e_offset e) key).
    rewrite (getValueAt_entry e (k, v) key He). cbn [fst snd].
    rewrite decide_True by exact Hkey. reflexivity.
  - lia.
  - lia.
Qed.

(** The length field of a descriptor: two slots per pair of the
    subtable. *)
Lemma header_length i :
  (i < 256)%nat ->
  t_length (nth i (header cdb) zero_table) = 2 * Z.of_nat (length (in_table i kvs)).
Proof.
  intros Hi.
  destruct (fin_tables _ _ _ Hfin i Hi) as (es & sorted & pre & post & Hes & _ & Hidx & _).
  rewrite Hheader, nth_lookup, Hidx. unfold default, from_option, id. cbn [t_length].
  rewrite (list.Forall2_length _ _ _ Hes). reflexivity.
Qed.

Lemma Finalized_table_length i : 0 <= t_length (nth i (header cdb) zero_table).
Proof.
  destruct (nth_lookup_or_length (header cdb) i zero_table) as [Hi|Hge].
  - pose proof (lookup_lt_Some _ _ _ Hi) as Hlt.
    rewrite Hheader, (fin_len _ _ _ Hfin) in Hlt.
    rewrite (header_length i Hlt). lia.
  - rewrite nth_overflow by lia. reflexivity.
Qed.

(** What a slot of a subtable holds: the empty pair, or a hash with
    the offset of a record, which lies behind the header. *)
Lemma slot_offsets i s :
  (i < 256)%nat ->
  0 <= s < t_length (nth i (header cdb) zero_table) ->
  exists h off,
    readTuple (reader cdb)
      (u64 (t_offset (nth i (header cdb) zero_table) + u64 (16 * s))) = Ok (h, off)
    /\ ((h = 0 /\ off = 0) \/ headerSize <= off).
Proof.
  intros Hi Hs.
  destruct (fin_tables _ _ _ Hfin i Hi) as (es & sorted & pre & post & Hes & Hplace & Hidx & Hd).
  rewrite Hheader, nth_lookup, Hidx in Hs |- *.
  unfold default, from_option, id in Hs |- *. cbn [t_length t_offset] in Hs |- *.
  pose proof records_fit as Hfit.
  pose proof (place_all_length _ _ _ _ Hplace) as Hl. rewrite length_replicate in Hl.
  assert (HQ : Forall (fun x => wf_entry x /\ (x = zero_entry \/ headerSize <= e_offset x))
                 sorted).
  { eapply place_all_Forall; [exact Hplace| |].
    - apply Forall_replicate. split; [|left; reflexivity].
      unfold wf_entry, zero_entry. simpl. lia.
    - eapply Forall2_Forall_l; [exact Hes|]. apply Forall_true.
      intros kv x Hx. destruct (rec_at_wf _ _ _ Hx Hfit). auto. }
  destruct (lookup_lt_is_Some_2 sorted (Z.to_nat s) ltac:(lia)) as [x Hx].
  rewrite List.Forall_forall in HQ.
  destruct (HQ x) as [Hwf Hx']; [apply list_elem_of_In, list_elem_of_lookup; eauto|].
  exists (e_hash x), (e_offset x). split.
  - apply (readTuple_slot pre sorted post); [exact Hd|exact Hx|lia|exact Hwf].
  - destruct Hx' as [->|Hx']; [left; split; reflexivity|right; exact Hx'].
Qed.

(** A key whose hash is zero is not found in the finalized file,
    whether it was put or not. *)
Lemma Get_zero_hash_None key :
  hash_of key = 0 -> snd (Get cdb key) = Ok None.
Proof.
  intros Hz. unfold Get.
  change (Sum64 (fst (Write (Reset (hasher cdb)) key))) with (hash_of key).
  rewrite Hz. change (Z.to_nat (Z.land 0 255)) with 0%nat.
  set (tbl := nth 0 (header cdb) zero_table).
  destruct (Z.eqb_spec (t_length tbl) 0) as [E|NE]; [reflexivity|]. cbn [snd].
  pose proof (Finalized_table_length 0) as HL. fold tbl in HL.
  assert (Hst : 0 <= Z.shiftr 0 8 mod t_length tbl < t_length tbl)
    by (apply Z.mod_pos_bound; lia).
  apply (Get_loop_zero_None _ key tbl _ Hst) with (j := 0); [|lia|lia|lia|].
  - cbn [reader]. intros s Hs.
    destruct (slot_offsets 0 s ltac:(lia) Hs) as (h & off & Hrd & _). eauto.
  - rewrite Z.add_0_r. symmetry. apply Z.mod_small. exact Hst.
Qed.
End Finalized.

(** ** From the writer to the reader *)

Lemma decode_table_shift a b buf i :
  0 <= i ->
  decode_table ((PutUint64 a ++ PutUint64 b) ++ buf) (1 + i) = decode_table buf i.
Proof.
  intros Hi. unfold decode_table, sub. cbv zeta.
  assert (Hl : length (PutUint64 a ++ PutUint64 b) = 16%nat)
    by (rewrite length_app, !length_PutUint64; reflexivity).
  replace (Z.to_nat ((1 + i) * 16)) with (16 + Z.to_nat (i * 16))%nat by lia.
  replace (Z.to_nat ((1 + i) * 16 + 8)) with (16 + Z.to_nat (i * 16 + 8))%nat by lia.
  rewrite !drop_app_add' by (symmetry; exact Hl).
  replace ((1 + i) * 16 + 8 - (1 + i) * 16) with (i * 16 + 8 - i * 16) by lia.
  replace ((1 + i) * 16 + 16 - ((1 + i) * 16 + 8)) with (i * 16 + 16 - (i * 16 + 8)) by lia.
  reflexivity.
Qed.

Lemma decode_encode_header index : forall rest,
  Forall wf_table index ->
  map (decode_table (encode_header index ++ rest)) (seqZ 0 (Z.of_nat (length index)))
  = index.
Proof.
  induction index as [|t index IH]; intros rest Hwf; [reflexivity|].
  inversion Hwf as [|? ? [Ho Hl] Hwf']; subst.
  cbn [length]. rewrite seqZ_cons by lia.
  replace (Z.pred (Z.of_nat (S (length index)))) with (Z.of_nat (length index)) by lia.
  change (Z.succ 0) with (1 + 0). rewrite <- fmap_add_seqZ.
  cbn [map]. unfold encode_header. cbn [map concat]. fold (encode_header index).
  rewrite <- app_assoc.
  f_equal.
  - unfold decode_table, sub. cbv zeta. destruct t as [o l]. cbn [t_offset t_length] in *.
    f_equal.
    + change (Z.to_nat (0 * 16)) with 0%nat. rewrite drop_0.
      change (Z.to_nat (0 * 16 + 8 - 0 * 16)) with 8%nat.
      rewrite <- app_assoc. rewrite take_app_length' by (symmetry; apply length_PutUint64).
      rewrite <- (app_nil_r (PutUint64 o)). apply Uint64_PutUint64. exact Ho.
    + change (Z.to_nat (0 * 16 + 8)) with 8%nat.
      change (Z.to_nat (0 * 16 + 16 - (0 * 16 + 8))) with 8%nat.
      rewrite <- app_assoc. rewrite drop_app_length' by (symmetry; apply length_PutUint64).
      rewrite take_app_length' by (symmetry; apply length_PutUint64).
      rewrite <- (app_nil_r (PutUint64 l)). apply Uint64_PutUint64. exact Hl.
  - etransitivity; [|exact (IH rest Hwf')].
    change (Z.add 1 <$> seqZ 0 (Z.of_nat (length index)))
      with (map (Z.add 1) (seqZ 0 (Z.of_nat (length index)))).
    rewrite map_map.
    apply map_ext_in. intros i Hi.
    apply list_elem_of_In, elem_of_seqZ in Hi.
    apply decode_table_shift. lia.
Qed.

Lemma readHeader_encode f h hd0 index rest :
  f_closed f = false -> f_data f = encode_header index ++ rest ->
  length index = 256%nat -> Forall wf_table index ->
  readHeader (mkCDB f h hd0) = Ok (mkCDB f h index).
Proof.
  intros Hc Hd Hlen Hwf. unfold readHeader. cbn [reader hasher].
  pose proof (length_encode_header index) as Hl. rewrite Hlen in Hl.
  replace headerSize with (Z.of_nat (length (encode_header index)))
    by (rewrite Hl; reflexivity).
  change 0 with (Z.of_nat (length (@nil byte))) at 1.
  rewrite (ReadAt_app f [] (encode_header index) rest Hc Hd). cbn [bind].
  do 2 f_equal.
  change (fun i => _) with (decode_table (encode_header index)).
  rewrite <- (app_nil_r (encode_header index)).
  change 256 with (Z.of_nat 256). rewrite <- Hlen.
  apply decode_encode_header. exact Hwf.
Qed.

Lemma Finalized_wf_header kvs data index :
  Finalized kvs data index -> file_size kvs < 2 ^ 63 -> Forall wf_table index.
Proof.
  intros Hfin Hsz. apply Forall_lookup. intros i t Hi.
  pose proof (lookup_lt_Some _ _ _ Hi) as Hlt. rewrite (fin_len _ _ _ Hfin) in Hlt.
  destruct (fin_tables _ _ _ Hfin i Hlt) as (es & sorted & pre & post & _ & Hplace & Hidx & Hd).
  rewrite Hidx in Hi. inversion Hi; subst t.
  pose proof (fin_size _ _ _ Hfin) as Hfs.
  pose proof (place_all_length _ _ _ _ Hplace) as Hl. rewrite length_replicate in Hl.
  rewrite Hd, !length_app, !Nat2Z.inj_add, length_table_bytes, Hl in Hfs.
  unfold wf_table. cbn [t_offset t_length]. change headerSize with 4096. lia.
Qed.

(** [Create], the puts and [Freeze] return a reader on the finalized
    file. *)
Lemma freeze_run_spec kvs :
  file_size kvs < 2 ^ 63 ->
  exists cdb,
    freeze_run (puts kvs) = Ok cdb
    /\ Finalized kvs (f_data (reader cdb)) (header cdb)
    /\ f_closed (reader cdb) = false.
Proof.
  intros Hsz. unfold freeze_run.
  destruct Create_inv as (w0 & HC & Hinv0). rewrite HC. cbn [bind].
  destruct (PutAll_inv kvs w0 [] Hinv0 Hsz) as (w1 & HP & Hinv1).
  rewrite HP. cbn [app] in Hinv1.
  destruct (finalize_spec w1 kvs Hinv1 Hsz) as (index & data & Hf & Hfin).
  unfold Freeze, once_finalize. rewrite (inv_once _ _ Hinv1), Hf.
  cbn. eexists. split; [reflexivity|]. cbn. split; [exact Hfin|reflexivity].
Qed.

(** [Create], the puts, [Close] and [Open] return a reader on the same
    file with the same header. *)
Lemma close_open_run_spec kvs :
  file_size kvs < 2 ^ 63 ->
  exists cdb,
    close_open_run (puts kvs) = Ok cdb
    /\ Finalized kvs (f_data (reader cdb)) (header cdb)
    /\ f_closed (reader cdb) = false.
Proof.
  intros Hsz. unfold close_open_run.
  destruct Create_inv as (w0 & HC & Hinv0). rewrite HC. cbn [bind].
  destruct (PutAll_inv kvs w0 [] Hinv0 Hsz) as (w1 & HP & Hinv1).
  rewrite HP. cbn [app] in Hinv1.
  destruct (finalize_spec w1 kvs Hinv1 Hsz) as (index & data & Hf & Hfin).
  unfold Close, once_finalize. rewrite (inv_once _ _ Hinv1), Hf.
  cbn. unfold Open, New. cbn [f_data].
  destruct (fin_records _ _ _ Hfin) as [tl Htl].
  rewrite (readHeader_encode _ _ _ index (records_bytes kvs ++ tl));
    [|reflexivity|exact Htl|exact (fin_len _ _ _ Hfin)
     |exact (Finalized_wf_header _ _ _ Hfin Hsz)].
  eexists. split; [reflexivity|]. cbn. split; [exact Hfin|reflexivity].
Qed.

(** ** The first record *)

(** A later [Put] appends to the entries of a subtable: the entry at
    the head of a list stays at its head. *)
Lemma Put_keeps_head w key value t e l :
  nth t (entries w) [] = e :: l ->
  exists l', nth t (entries (fst (Put w key value))) [] = e :: l'.
Proof.
  intros H.
  assert (Ht : (t < length (entries w))%nat).
  { destruct (Nat.lt_ge_cases t (length (entries w))) as [Hlt|Hge]; [exact Hlt|].
    rewrite nth_overflow in H by exact Hge. discriminate. }
  unfold Put. destruct key as [k|], value as [v|]; cbn [fst]; eauto.
  set (t' := Z.to_nat (Z.land (hash_of (Some k)) 255)).
  set (x := mkEntry (hash_of (Some k)) (u64 (bufferedOffset w))).
  assert (Hent : exists l',
             nth t (<[t' := nth t' (entries w) [] ++ [x]]> (entries w)) [] = e :: l').
  { destruct (decide (t' = t)) as [->|Hne].
    - rewrite nth_insert_eq by exact Ht. rewrite H. eexists. reflexivity.
    - rewrite nth_insert_ne by exact Hne. eauto. }
  destruct (bufferedWriter w); cbn [fst entries]; exact Hent.
Qed.

Lemma PutAll_keeps_head kvs : forall w t e l,
  nth t (entries w) [] = e :: l ->
  exists l', nth t (entries (fst (PutAll w kvs))) [] = e :: l'.
Proof.
  induction kvs as [|[k v] kvs IH]; intros w t e l H; [cbn; eauto|].
  cbn [PutAll].
  destruct (Put_keeps_head w k v t e l H) as [l1 H1].
  destruct (Put w k v) as [w1 [[]|err|]]; cbn [fst] in *; eauto.
Qed.

(** The entry of the first put of a run carries the offset
    [headerSize], and is the first of its subtable. *)
Lemma first_put_entry k v rest w :
  PutAll created (puts ((k, v) :: rest)) = (w, Ok tt) ->
  exists l, nth (table_of (k, v)) (entries w) []
            = mkEntry (hash_of (Some k)) headerSize :: l.
Proof.
  cbn [puts map PutAll fst snd].
  set (w1 := fst (Put created (Some k) (Some v))).
  assert (HP : Put created (Some k) (Some v) = (w1, Ok tt)) by reflexivity.
  rewrite HP. intros HA.
  assert (H1 : nth (table_of (k, v)) (entries w1) []
               = mkEntry (hash_of (Some k)) headerSize :: []).
  { unfold w1, Put, created. cbn [fst entries bufferedWriter bufferedOffset].
    unfold table_of. cbn [fst].
    pose proof (table_of_lt (k, v)) as Hlt. unfold table_of in Hlt. cbn [fst] in Hlt.
    rewrite nth_insert_eq by (rewrite length_replicate; exact Hlt).
    rewrite nth_lookup, lookup_replicate_2 by exact Hlt. reflexivity. }
  destruct (PutAll_keeps_head (puts rest) w1 _ _ _ H1) as [l Hl].
  change (map (fun kv : list byte * list byte => (Some (fst kv), Some (snd kv))) rest)
    with (puts rest) in HA.
  rewrite HA in Hl. eauto.
Qed.

(** [finalize], with the entries each subtable is placed from. *)
Lemma finalize_entries w kvs :
  Winv w kvs -> file_size kvs < 2 ^ 63 ->
  exists index data,
    finalize w = (mkWriter (mkSink data 4096 false true true) (entries w) false None
                           (Z.of_nat (length data)) (estimatedFooterSize w),
                  Ok index)
    /\ Finalized kvs data index
    /\ forall i, (i < 256)%nat ->
         exists sorted pre post,
           place_all (2 * Z.of_nat (length (nth i (entries w) [])))
             (replicate (Z.to_nat (2 * Z.of_nat (length (nth i (entries w) [])))) zero_entry)
             (nth i (entries w) []) = Ok sorted
           /\ index !! i = Some (mkTable (headerSize + Z.of_nat (length pre))
                                         (2 * Z.of_nat (length (nth i (entries w) []))))
           /\ data = encode_header index ++ pre ++ table_bytes sorted ++ post.
Proof.
  intros Hinv Hsz.
  destruct (finalize_spec w kvs Hinv Hsz) as (index & data & Hf & Hfin).
  destruct Hinv as [Hbuf Hoff Hfoot Hlen Htot Hents Hsink Honce].
  assert (Hhs : headerSize = 4096) by reflexivity.
  unfold file_size in Hsz.
  destruct (finalize_tables_spec (entries w) (seq 0 256) (replicate 256 zero_table)
              (records_bytes kvs) (bufferedOffset w) (NoDup_seq 0 256) Hoff)
    as (index' & tl & Hft & Hilen & Htl & _ & Hin).
  { rewrite Htot. lia. }
  rewrite length_replicate in Hilen.
  pose proof (length_encode_header index') as Hhl. rewrite Hilen in Hhl.
  assert (Hhl' : length (encode_header index') = 4096%nat) by lia.
  assert (Hf' : exists n,
             finalize w = (mkWriter (mkSink (encode_header index' ++ records_bytes kvs ++ tl)
                                            4096 false true true)
                                    (entries w) false None n (estimatedFooterSize w),
                           Ok index')).
  { unfold finalize. rewrite Hbuf, Hft, Hsink.
    set (zeros := replicate 4096 Byte.x00).
    assert (Hz : length zeros = 4096%nat) by apply length_replicate.
    rewrite File_Write_end by (rewrite Hz; reflexivity).
    unfold Seek0. cbn [f_closed f_data f_isReaderAt f_isCloser].
    rewrite File_Write_start by (rewrite Hz; exact Hhl').
    rewrite Honce, Hhl'. eexists. reflexivity. }
  destruct Hf' as [n Hf'].
  assert (Ei : index' = index) by congruence.
  assert (Ed : encode_header index' ++ records_bytes kvs ++ tl = data) by congruence.
  subst index'.
  exists index, data. split; [exact Hf|]. split; [exact Hfin|].
  intros i Hi.
  destruct (Hin i) as (sorted & pre & post & H1 & H2 & H3).
  { apply elem_of_seq. lia. }
  { rewrite length_replicate. exact Hi. }
  exists sorted, pre, post. split; [exact H1|]. split; [exact H2|].
  rewrite <- Ed, H3. reflexivity.
Qed.

(** The two readers of a run are those of [Freeze] and of [Open]. *)
Lemma readers_unique kvs c1 c2 c1' c2' :
  readers kvs c1 c2 -> readers kvs c1' c2' -> c1' = c1 /\ c2' = c2.
Proof. intros [H1 H2] [H1' H2']. split; congruence. Qed.

(** The record of the first put lies at the offset [headerSize], right
    behind the header; when the hash of its key is not zero, a slot of
    its subtable holds that hash and that offset. *)
Lemma first_record k v rest :
  file_size ((k, v) :: rest) < 2 ^ 63 ->
  exists c1 c2, readers ((k, v) :: rest) c1 c2 /\
    forall c, c = c1 \/ c = c2 ->
      getValueAt c headerSize (Some k) = Ok (Some v)
      /\ (hash_of (Some k) <> 0 ->
          exists s, 0 <= s < t_length (nth (table_of (k, v)) (header c) zero_table)
                    /\ read_slot c (table_of (k, v)) s = Ok (hash_of (Some k), headerSize)).
Proof.
  intros Hsz. set (kvs := (k, v) :: rest) in *.
  assert (Hinv0 : Winv created []).
  { destruct Create_inv as (w0 & HC & H).
    change Create with (Ok created) in HC. injection HC as <-. exact H. }
  destruct (PutAll_inv kvs created [] Hinv0 Hsz) as (w & HP & Hinv). cbn [app] in Hinv.
  destruct (finalize_entries w kvs Hinv Hsz) as (index & data & Hf & Hfin & Htabs).
  destruct (first_put_entry k v rest w HP) as [l Hl].
  set (c1 := mkCDB (mkSink data 4096 false true true) newCDBHash index).
  set (c2 := mkCDB (mkSink data 0 false true true) newCDBHash index).
  assert (R1 : freeze_run (puts kvs) = Ok c1).
  { unfold freeze_run. change Create with (Ok created). cbn [bind]. rewrite HP.
    unfold Freeze, once_finalize. rewrite (inv_once _ _ Hinv), Hf. reflexivity. }
  assert (R2 : close_open_run (puts kvs) = Ok c2).
  { unfold close_open_run. change Create with (Ok created). cbn [bind]. rewrite HP.
    unfold Close, once_finalize. rewrite (inv_once _ _ Hinv), Hf.
    cbn. unfold Open, New. cbn [f_data].
    destruct (fin_records _ _ _ Hfin) as [tl Htl].
    apply (readHeader_encode _ _ _ index (records_bytes kvs ++ tl));
      [reflexivity|exact Htl|exact (fin_len _ _ _ Hfin)
      |exact (Finalized_wf_header _ _ _ Hfin Hsz)]. }
  exists c1, c2. split; [split; assumption|].
  assert (Hboth : forall c, f_data (reader c) = data -> f_closed (reader c) = false ->
            header c = index ->
            getValueAt c headerSize (Some k) = Ok (Some v)
            /\ (hash_of (Some k) <> 0 ->
                exists s, 0 <= s < t_length (nth (table_of (k, v)) (header c) zero_table)
                  /\ read_slot c (table_of (k, v)) s = Ok (hash_of (Some k), headerSize))).
  { intros c Hdata Hopen Hheader. split.
    - destruct (fin_records _ _ _ Hfin) as [tl Htl].
      pose proof (length_header_bytes kvs data index Hfin) as Hhl.
      pose proof (fin_size _ _ _ Hfin) as Hfs.
      rewrite (getValueAt_record c (encode_header index) (records_bytes rest ++ tl) (k, v)).
      + cbn [fst snd elems]. rewrite decide_True by reflexivity. reflexivity.
      + exact Hopen.
      + rewrite Hdata, Htl.
        change (records_bytes kvs) with (record_bytes (k, v) ++ records_bytes rest).
        rewrite <- !app_assoc. reflexivity.
      + rewrite Hhl. reflexivity.
      + rewrite Htl in Hfs.
        change (records_bytes kvs) with (record_bytes (k, v) ++ records_bytes rest) in Hfs.
        rewrite !length_app in Hfs. change headerSize with 4096. lia.
    - intros Hnz.
      set (i := table_of (k, v)) in *.
      assert (Hi : (i < 256)%nat) by apply table_of_lt.
      destruct (Htabs i Hi) as (sorted & pre & post & Hplace & Hidx & Hd).
      rewrite Hl in Hplace, Hidx.
      set (e := mkEntry (hash_of (Some k)) headerSize) in *.
      set (L := 2 * Z.of_nat (length (e :: l))) in *.
      assert (HL : 0 < L) by (unfold L; cbn [length]; lia).
      destruct (place_all_chain (fun _ => True) L [] e l
                  (replicate (Z.to_nat L) zero_entry) sorted)
        as (d & Hd1 & _ & Hslot).
      { rewrite length_replicate. lia. }
      { exact Hplace. }
      { apply Forall_replicate. intros _. exact I. }
      { constructor. }
      { exact Hnz. }
      cbv zeta in Hslot. cbn [e_hash e] in Hslot.
      set (home := Z.shiftr (hash_of (Some k)) 8 mod L) in *.
      pose proof (cyc_range L home d HL) as Hr.
      exists (cyc L home d).
      rewrite Hheader, nth_lookup, Hidx. unfold default, from_option, id.
      cbn [t_length]. split; [exact Hr|].
      unfold read_slot. rewrite Hheader, nth_lookup, Hidx.
      unfold default, from_option, id. cbn [t_offset].
      change (Ok (hash_of (Some k), headerSize)) with (Ok (e_hash e, e_offset e)).
      apply (readTuple_slot kvs data index c Hfin Hsz Hdata Hopen pre sorted post
               (cyc L home d) e Hd Hslot); [lia|].
      pose proof (hash_of_range (Some k)). unfold wf_entry, e. cbn [e_hash e_offset].
      change headerSize with 4096. lia. }
  intros c [->| ->]; apply Hboth; reflexivity.
Qed.

(** * The properties of the specification *)

Lemma runs_spec kvs :
  file_size kvs < 2 ^ 63 ->
  exists c1 c2, readers kvs c1 c2
    /\ (Finalized kvs (f_data (reader c1)) (header c1) /\ f_closed (reader c1) = false)
    /\ (Finalized kvs (f_data (reader c2)) (header c2) /\ f_closed (reader c2) = false).
Proof.
  intros Hsz.
  destruct (freeze_run_spec kvs Hsz) as (c1 & H1 & F1 & O1).
  destruct (close_open_run_spec kvs Hsz) as (c2 & H2 & F2 & O2).
  exists c1, c2. unfold readers. auto.
Qed.

(** ** Lookup of the keys put *)

(** C1: round trip, at a run on which the code loses a key.  The run
    puts "foo" and then a key of 13 bytes whose hash is zero, each with
    the value "bar": the keys are distinct and both puts succeed.
    After finalize [Get] returns "bar" for "foo", and for the second
    key the nil value without an error, as for a key that was never
    put, on the reader of [Freeze] and on the reader of [Open]. *)
Theorem C1_round_trip_zero_hash_key :
  NoDup (map fst [(foo, bar); (zero_key, bar)]) /\
  exists c1 c2, readers [(foo, bar); (zero_key, bar)] c1 c2
    /\ (snd (Get c1 (Some foo)) = Ok (Some bar)
        /\ snd (Get c2 (Some foo)) = Ok (Some bar))
    /\ (snd (Get c1 (Some zero_key)) = Ok None
        /\ snd (Get c2 (Some zero_key)) = Ok None).
Proof.
  split; [apply (bool_decide_unpack _); vm_compute; exact I|].
  eexists. eexists. split; [split; vm_compute; reflexivity|].
  split; split; vm_compute; reflexivity.
Qed.

(** ** The key whose hash is zero *)

(** C2: a key whose hash is zero, put and finalized.  [zero_key]
    hashes to zero; after its put and finalize its entry is in the
    file, in the slot 0 of subtable 0, with the hash 0 and the record
    offset 4096, which is not zero, and the record at 4096 is the one
    of the key; [Get] on the key returns the nil value: the probe takes
    the slot for an empty one because its hash is zero. *)
Theorem C2_zero_hash_key_not_returned :
  hash_of (Some zero_key) = 0 /\
  exists c1 c2, readers [(zero_key, bar)] c1 c2
    /\ (read_slot c1 0 0 = Ok (0, 4096) /\ read_slot c2 0 0 = Ok (0, 4096))
    /\ (getValueAt c1 4096 (Some zero_key) = Ok (Some bar)
        /\ getValueAt c2 4096 (Some zero_key) = Ok (Some bar))
    /\ (snd (Get c1 (Some zero_key)) = Ok None
        /\ snd (Get c2 (Some zero_key)) = Ok None).
Proof.
  split; [vm_compute; reflexivity|].
  eexists. eexists. split; [split; vm_compute; reflexivity|].
  split; [|split]; split; vm_compute; reflexivity.
Qed.

(** ** The same key put twice *)

(** C3: a key put twice, at a run on which the code returns neither
    value.  [zero_key] is put with the value "first" and then with the
    value "second".  Both records are in the file, at the offsets 4096
    and 4130; of the four slots of subtable 0 the slot 0 holds the
    offset of the second record, the entry of the first having been
    overwritten, and the others are empty; [Get] on the key returns the
    nil value, not the value put first. *)
Theorem C3_duplicate_zero_hash_key :
  first_value <> second_value /\
  exists c1 c2,
    readers [(zero_key, first_value); (zero_key, second_value)] c1 c2
    /\ (getValueAt c1 4096 (Some zero_key) = Ok (Some first_value)
        /\ getValueAt c1 4130 (Some zero_key) = Ok (Some second_value))
    /\ (t_length (nth 0 (header c1) zero_table) = 4
        /\ map (read_slot c1 0) [0; 1; 2; 3] = [Ok (0, 4130); Ok (0, 0); Ok (0, 0); Ok (0, 0)]
        /\ map (read_slot c2 0) [0; 1; 2; 3] = [Ok (0, 4130); Ok (0, 0); Ok (0, 0); Ok (0, 0)])
    /\ (snd (Get c1 (Some zero_key)) = Ok None
        /\ snd (Get c2 (Some zero_key)) = Ok None).
Proof.
  split; [discriminate|].
  eexists. eexists. split; [split; vm_compute; reflexivity|].
  split; [split; vm_compute; reflexivity|].
  split; [split; [|split]; vm_compute; reflexivity|].
  split; vm_compute; reflexivity.
Qed.

(** ** The header *)

(** C4: load factor.  After finalize the length field of the header for
    every subtable [i] is twice the number of pairs put whose hash has
    the low byte [i], in the header [Freeze] returns and in the header
    read back from the file. *)
Theorem C4_load_factor kvs :
  file_size kvs < 2 ^ 63 ->
  exists c1 c2, readers kvs c1 c2 /\
    forall i, (i < 256)%nat ->
      t_length (nth i (header c1) zero_table) = 2 * Z.of_nat (length (in_table i kvs))
      /\ t_length (nth i (header c2) zero_table) = 2 * Z.of_nat (length (in_table i kvs)).
Proof.
  intros Hsz.
  destruct (runs_spec kvs Hsz) as (c1 & c2 & Hr & [F1 O1] & [F2 O2]).
  exists c1, c2. split; [exact Hr|]. intros i Hi. split.
  - exact (header_length kvs _ _ c1 F1 eq_refl i Hi).
  - exact (header_length kvs _ _ c2 F2 eq_refl i Hi).
Qed.

Lemma C4_load_factor_witness :
  file_size [(foo, bar)] < 2 ^ 63 /\
  exists c1 c2, readers [(foo, bar)] c1 c2 /\
    forall i, (i < 256)%nat ->
      t_length (nth i (header c1) zero_table)
        = 2 * Z.of_nat (length (in_table i [(foo, bar)]))
      /\ t_length (nth i (header c2) zero_table)
        = 2 * Z.of_nat (length (in_table i [(foo, bar)])).
Proof.
  split; [vm_compute; reflexivity|].
  apply (C4_load_factor [(foo, bar)]). vm_compute. reflexivity.
Defined.

Lemma Get_empty_table c key :
  (forall i, (i < 256)%nat -> t_length (nth i (header c) zero_table) = 0) ->
  snd (Get c key) = Ok None.
Proof.
  intros H. unfold Get.
  rewrite H; [reflexivity|].
  pose proof (land_255_range (Sum64 (fst (Write (Reset (hasher c)) key)))). lia.
Qed.

(** C5: no puts.  The file of a writer created and finalized without a
    put has exactly 4096 bytes, its 256 descriptors have the length 0,
    and [Get] returns not found for every key, the nil key included. *)
Theorem C5_empty_database :
  exists c1 c2, readers [] c1 c2
    /\ length (f_data (reader c1)) = 4096%nat
    /\ length (f_data (reader c2)) = 4096%nat
    /\ (length (header c2) = 256%nat /\ Forall (fun t => t_length t = 0) (header c2))
    /\ forall key, snd (Get c1 key) = Ok None /\ snd (Get c2 key) = Ok None.
Proof.
  assert (Hsz : file_size [] < 2 ^ 63) by (vm_compute; reflexivity).
  destruct (runs_spec [] Hsz) as (c1 & c2 & Hr & [F1 O1] & [F2 O2]).
  pose proof (header_length [] _ _ c1 F1 eq_refl) as H1.
  pose proof (header_length [] _ _ c2 F2 eq_refl) as H2.
  cbn in H1, H2.
  exists c1, c2. split; [exact Hr|].
  pose proof (fin_size _ _ _ F1) as S1. pose proof (fin_size _ _ _ F2) as S2.
  change (file_size []) with 4096 in S1, S2.
  split; [lia|]. split; [lia|]. split.
  - split; [exact (fin_len _ _ _ F2)|].
    apply Forall_lookup. intros i t Hi.
    pose proof (lookup_lt_Some _ _ _ Hi) as Hlt. rewrite (fin_len _ _ _ F2) in Hlt.
    rewrite <- (nth_lookup_Some _ _ zero_table _ Hi). apply H2. exact Hlt.
  - intros key. split; apply Get_empty_table; assumption.
Qed.

(** C7, as stated, fails: after the single put of ("foo", "bar") the
    slot 1 of subtable 163 holds the record offset 4096, which is
    [headerSize] itself and not strictly greater. *)
Lemma C7_offsets_not_strictly_above :
  exists c, freeze_run (puts [(foo, bar)]) = Ok c /\ ~ offsets_above true c.
Proof.
  eexists. split; [vm_compute; reflexivity|].
  intros H.
  specialize (H 163%nat 1 193410979 4096 ltac:(lia)).
  cbv beta iota in H.
  assert (Hlt : headerSize < 4096); [|vm_compute in Hlt; discriminate].
  apply H.
  - vm_compute. split; [discriminate|reflexivity].
  - vm_compute. reflexivity.
  - discriminate.
Qed.

(** C7, amended: for every sequence of puts, every slot written at
    finalize can be read and is the empty pair (0, 0) or holds a record
    offset greater than or equal to [headerSize] (4096); and the first
    record lies at 4096 exactly: in a run with at least one put, the
    record of the first pair put is the one at the offset [headerSize],
    and, when the hash of its key is not zero, a slot of its subtable
    holds that hash with the offset [headerSize]. *)
Theorem C7_offsets_at_least_headerSize kvs :
  file_size kvs < 2 ^ 63 ->
  exists c1 c2, readers kvs c1 c2 /\
    (forall c, c = c1 \/ c = c2 ->
       offsets_above false c
       /\ (forall i s, (i < 256)%nat -> 0 <= s < t_length (nth i (header c) zero_table) ->
             exists h off, read_slot c i s = Ok (h, off))
       /\ (forall k v rest, kvs = (k, v) :: rest ->
             getValueAt c headerSize (Some k) = Ok (Some v)
             /\ (hash_of (Some k) <> 0 ->
                 exists s,
                   0 <= s < t_length (nth (table_of (k, v)) (header c) zero_table)
                   /\ read_slot c (table_of (k, v)) s
                      = Ok (hash_of (Some k), headerSize)))).
Proof.
  intros Hsz.
  destruct (runs_spec kvs Hsz) as (c1 & c2 & Hr & [F1 O1] & [F2 O2]).
  exists c1, c2. split; [exact Hr|].
  assert (Hslot : forall c, c = c1 \/ c = c2 ->
            forall i s, (i < 256)%nat -> 0 <= s < t_length (nth i (header c) zero_table) ->
              exists h off, read_slot c i s = Ok (h, off)
                            /\ ((h = 0 /\ off = 0) \/ headerSize <= off)).
  { intros c [->| ->] i s Hi Hs.
    - exact (slot_offsets kvs _ _ c1 F1 Hsz eq_refl O1 eq_refl i s Hi Hs).
    - exact (slot_offsets kvs _ _ c2 F2 Hsz eq_refl O2 eq_refl i s Hi Hs). }
  intros c Hc. split; [|split].
  - intros i s h off Hi Hs Hread Hne.
    destruct (Hslot c Hc i s Hi Hs) as (h' & off' & Hread' & Hcase).
    rewrite Hread in Hread'. inversion Hread'; subst h' off'.
    destruct Hcase as [[-> ->]|Hge]; [contradiction|exact Hge].
  - intros i s Hi Hs.
    destruct (Hslot c Hc i s Hi Hs) as (h & off & Hread & _). eauto.
  - intros k v rest Hkvs. subst kvs.
    destruct (first_record k v rest Hsz) as (c1' & c2' & Hr' & Hfirst).
    destruct (readers_unique _ _ _ _ _ Hr Hr') as [-> ->].
    apply Hfirst. exact Hc.
Qed.

Lemma C7_offsets_at_least_headerSize_witness :
  file_size [(foo, bar)] < 2 ^ 63 /\
  exists c1 c2, readers [(foo, bar)] c1 c2 /\
    (forall c, c = c1 \/ c = c2 ->
       offsets_above false c
       /\ (forall i s, (i < 256)%nat -> 0 <= s < t_length (nth i (header c) zero_table) ->
             exists h off, read_slot c i s = Ok (h, off))
       /\ (forall k v rest, [(foo, bar)] = (k, v) :: rest ->
             getValueAt c headerSize (Some k) = Ok (Some v)
             /\ (hash_of (Some k) <> 0 ->
                 exists s,
                   0 <= s < t_length (nth (table_of (k, v)) (header c) zero_table)
                   /\ read_slot c (table_of (k, v)) s
                      = Ok (hash_of (Some k), headerSize)))).
Proof.
  split; [vm_compute; reflexivity|].
  apply (C7_offsets_at_least_headerSize [(foo, bar)]). vm_compute. reflexivity.
Defined.

(** ** Finalize runs once *)









(** [created] is the writer [Create] returns. *)
Lemma Create_created : Create = Ok created.
Proof. reflexivity. Qed.

(** ** The hasher of the reader *)

(** One after the other, calls of [Get] do not see the state an earlier
    call left in the hasher: the result depends on the file, the header
    and the key only. *)
Lemma Get_hasher_independent r h1 h2 hd key :
  Get (mkCDB r h1 hd) key = Get (mkCDB r h2 hd) key.
Proof. reflexivity. Qed.

(** The three calls of a goroutine in a row are one call of [Get]. *)
Lemma Get_in_steps cdb key :
  run cdb [AtReset key] (one_by_one [0%nat])
  = (fst (Get cdb key), [Returned (snd (Get cdb key))]).
Proof.
  unfold one_by_one, Get.
  cbn [flat_map app run lookup list_lookup step list_insert insert].
  unfold Get_probe. cbn [reader hasher header].
  destruct (_ =? 0); reflexivity.
Qed.

(** Two goroutines, one call after the other in either order: each
    returns what its [Get] returns on the reader alone. *)
Lemma two_Gets_one_by_one cdb k1 k2 :
  parallel_Get cdb [k1; k2] (one_by_one [0; 1]%nat)
  = [Returned (snd (Get cdb k1)); Returned (snd (Get cdb k2))]
  /\ parallel_Get cdb [k1; k2] (one_by_one [1; 0]%nat)
     = [Returned (snd (Get cdb k1)); Returned (snd (Get cdb k2))].
Proof.
  unfold parallel_Get, one_by_one, Get.
  cbn [flat_map app map run lookup list_lookup step list_insert insert].
  unfold Get_probe. cbn [reader hasher header snd].
  split; do 2 (destruct (_ =? 0)); reflexivity.
Qed.

(** C9: calls of [Get] that overlap, at a schedule on which the code
    returns wrong results.  On the reader of the run that puts
    ("foo", "bar") and ("bar", "foo"), one goroutine calls [Get] with
    "foo" and another with "bar".  One call after the other, in either
    order, they return "bar" and "foo".  When their calls on the hasher
    of the reader alternate (both [Reset], both [Write], both [Sum64])
    each reads the hash of "foobar" and both return the nil value. *)
Theorem C9_parallel_Get_wrong_results :
  exists c, freeze_run (puts [(foo, bar); (bar, foo)]) = Ok c
    /\ parallel_Get c [Some foo; Some bar] (one_by_one [0; 1]%nat)
       = [Returned (Ok (Some bar)); Returned (Ok (Some foo))]
    /\ parallel_Get c [Some foo; Some bar] (one_by_one [1; 0]%nat)
       = [Returned (Ok (Some bar)); Returned (Ok (Some foo))]
    /\ parallel_Get c [Some foo; Some bar] [0; 1; 0; 1; 0; 1]%nat
       = [Returned (Ok None); Returned (Ok None)].
Proof.
  eexists. split; [vm_compute; reflexivity|].
  split; [|split]; vm_compute; reflexivity.
Qed.

(** * Further properties of the code *)

(** ** The tuple codec *)

(** X1: a tuple written by [writeTuple] is read back by [readTuple] at
    the offset where it was written: both 64-bit values, unchanged. *)
Theorem tuple_round_trip f w first second rest :
  f_closed f = false ->
  f_data f = writeTuple w first second ++ rest ->
  0 <= first < 2 ^ 64 -> 0 <= second < 2 ^ 64 ->
  Z.of_nat (length w) < 2 ^ 63 ->
  readTuple f (Z.of_nat (length w)) = Ok (first, second).
Proof.
  intros Hc Hd Ha Hb Hw.
  apply (readTuple_at f w rest first second); try assumption; [|reflexivity].
  rewrite Hd. unfold writeTuple. rewrite <- app_assoc. reflexivity.
Qed.

Lemma tuple_round_trip_witness :
  f_closed (mkSink (writeTuple foo 7 4096 ++ bar) 0 false true true) = false /\
  f_data (mkSink (writeTuple foo 7 4096 ++ bar) 0 false true true)
    = writeTuple foo 7 4096 ++ bar /\
  0 <= 7 < 2 ^ 64 /\ 0 <= 4096 < 2 ^ 64 /\
  Z.of_nat (length foo) < 2 ^ 63 /\
  readTuple (mkSink (writeTuple foo 7 4096 ++ bar) 0 false true true)
    (Z.of_nat (length foo)) = Ok (7, 4096).
Proof.
  repeat (split; [reflexivity || lia|]).
  apply (tuple_round_trip _ foo 7 4096 bar); reflexivity || lia.
Defined.

(** X2: [readTuple] fails, and returns no pair, when fewer than 16
    bytes lie at the offset, and when the offset is negative as an
    [int64] (2^63 and above). *)
Theorem readTuple_short f offset :
  f_closed f = false ->
  0 <= offset < 2 ^ 64 ->
  2 ^ 63 <= offset \/ Z.of_nat (length (f_data f)) < offset + 16 ->
  readTuple f offset = Err ErrIO.
Proof.
  intros Hc Ho Hcase. unfold readTuple, ReadAt. rewrite Hc.
  destruct (Z.lt_ge_cases offset (2 ^ 63)) as [Hlt|Hge].
  - rewrite i64_small by lia.
    destruct (Z.ltb_spec offset 0); [lia|].
    change (16 =? 0) with false. cbv iota.
    destruct (Z.leb_spec (offset + 16) (Z.of_nat (length (f_data f)))); [lia|].
    reflexivity.
  - assert (Hneg : i64 offset < 0).
    { unfold i64.
      replace (offset + 2 ^ 63) with (offset - 2 ^ 63 + 1 * 2 ^ 64) by lia.
      rewrite Z.mod_add by lia. rewrite Z.mod_small by lia. lia. }
    destruct (Z.ltb_spec (i64 offset) 0); [reflexivity|lia].
Qed.

Lemma readTuple_short_witness :
  f_closed (mkSink foo 0 false true true) = false /\
  0 <= 0 < 2 ^ 64 /\
  (2 ^ 63 <= 0 \/ Z.of_nat (length (f_data (mkSink foo 0 false true true))) < 0 + 16) /\
  readTuple (mkSink foo 0 false true true) 0 = Err ErrIO.
Proof.
  split; [reflexivity|]. split; [lia|]. split; [right; simpl; lia|].
  apply (readTuple_short (mkSink foo 0 false true true) 0); [reflexivity|lia|].
  right. simpl. lia.
Defined.

(** ** The hasher *)

Lemma Write_range_app a b v :
  Write_range v (a ++ b) = Write_range (Write_range v a) b.
Proof. revert v. induction a as [|x a IH]; intros v; simpl; [reflexivity|apply IH]. Qed.

(** X3: the hasher streams: two calls of [Write] leave the state, and
    so the digest, that one call with the concatenated bytes leaves; a
    [Write] of the nil slice changes nothing. *)
Theorem Write_streams h (a b : slice) :
  fst (Write (fst (Write h a)) b) = fst (Write h (Some (elems a ++ elems b)))
  /\ Sum64 (fst (Write (fst (Write h a)) None)) = Sum64 (fst (Write h a)).
Proof.
  unfold Write, Sum64. cbn [fst uint64 elems]. split; [|reflexivity].
  rewrite Write_range_app. reflexivity.
Qed.

Lemma Write_lands h data : 0 <= uint64 h < 2 ^ 64 -> 0 <= Sum64 (fst (Write h data)) < 2 ^ 64.
Proof.
  intros Hh. unfold Write, Sum64. cbn [fst uint64].
  rewrite Write_range_fold. apply spec_hash_fold_range. exact Hh.
Qed.

(** X4: [Sum] does not append the digest.  With fewer than eight bytes
    in [b] (the nil slice among them) it panics; otherwise the slice
    returned is eight bytes longer than [b], its first eight bytes are
    the little-endian digest, written over those of [b], the rest of [b]
    follows, and the eight bytes appended are zero. *)
Theorem Sum_overwrites key (b : slice) :
  (len b < 8 -> Sum (fst (Write (Reset newCDBHash) key)) b = Err ErrPanic)
  /\ (8 <= len b ->
      exists out, Sum (fst (Write (Reset newCDBHash) key)) b = Ok out
        /\ Z.of_nat (length out) = len b + 8
        /\ Uint64 out = hash_of key
        /\ sub out 8 (len b) = drop 8 (elems b)
        /\ drop (Z.to_nat (len b)) out = replicate 8 Byte.x00).
Proof.
  set (h := fst (Write (Reset newCDBHash) key)). unfold Sum. split.
  - intros Hlt. destruct (Z.ltb_spec (len b) 8); [reflexivity|lia].
  - intros Hge. destruct (Z.ltb_spec (len b) 8); [lia|].
    eexists. split; [reflexivity|].
    assert (Hb : len b = Z.of_nat (length (elems b))) by (destruct b; reflexivity).
    assert (Hd : length (drop 8 (elems b)) = (length (elems b) - 8)%nat)
      by apply length_drop.
    assert (Hp : length (PutUint64 (Sum64 h)) = 8%nat) by apply length_PutUint64.
    split; [|split; [|split]].
    + rewrite !length_app, Hp, Hd, length_replicate. lia.
    + rewrite <- app_assoc. apply Uint64_PutUint64. apply hash_of_range.
    + unfold sub. change (Z.to_nat 8) with 8%nat.
      rewrite <- app_assoc, drop_app_length' by (symmetry; exact Hp).
      apply take_app_length'. rewrite Hd. lia.
    + apply drop_app_length'. rewrite length_app, Hp, Hd. lia.
Qed.

(** ** Opening a reader *)

Lemma New_Ok f c :
  New f = Ok c ->
  reader c = f /\ length (header c) = 256%nat /\ Forall wf_table (header c).
Proof.
  unfold New, readHeader. cbn [reader hasher].
  destruct (ReadAt f headerSize 0) as [buf| |]; cbn [bind]; try discriminate.
  intros H.
  assert (Hc : c = mkCDB f newCDBHash (map (decode_table buf) (seqZ 0 256)))
    by (unfold decode_table; congruence).
  subst c. cbn [reader header].
  split; [reflexivity|]. split.
  - rewrite length_map, length_seqZ. reflexivity.
  - apply list.Forall_forall. intros t Ht.
    apply list_elem_of_fmap in Ht as (i & -> & _).
    split; cbn [t_offset t_length]; apply Uint64_range.
Qed.

(** X5: [New] reads the 4096 bytes of the header: on an open file with
    fewer bytes it fails with the error of the short read; on an open
    file with at least 4096 bytes it returns a reader on that file whose
    header has 256 descriptors of [uint64] fields, whatever the bytes
    are. *)
Theorem New_reads_header f :
  f_closed f = false ->
  (Z.of_nat (length (f_data f)) < headerSize -> New f = Err ErrIO)
  /\ (headerSize <= Z.of_nat (length (f_data f)) ->
      exists c, New f = Ok c /\ reader c = f /\ length (header c) = 256%nat
                /\ Forall wf_table (header c)).
Proof.
  intros Hc. split.
  - intros Hlt. unfold New, readHeader, ReadAt. cbn [reader]. rewrite Hc.
    change (0 <? 0) with false. change (headerSize =? 0) with false. cbv iota.
    destruct (Z.leb_spec (0 + headerSize) (Z.of_nat (length (f_data f)))); [lia|].
    reflexivity.
  - intros Hge.
    assert (HN : exists c, New f = Ok c).
    { unfold New, readHeader, ReadAt. cbn [reader hasher]. rewrite Hc.
      change (0 <? 0) with false. change (headerSize =? 0) with false. cbv iota.
      destruct (Z.leb_spec (0 + headerSize) (Z.of_nat (length (f_data f)))); [|lia].
      cbn [bind]. eauto. }
    destruct HN as [c HN]. exists c. split; [exact HN|]. apply New_Ok. exact HN.
Qed.

Lemma New_reads_header_witness :
  f_closed new_file = false /\
  (Z.of_nat (length (f_data new_file)) < headerSize -> New new_file = Err ErrIO)
  /\ (headerSize <= Z.of_nat (length (f_data new_file)) ->
      exists c, New new_file = Ok c /\ reader c = new_file
                /\ length (header c) = 256%nat /\ Forall wf_table (header c)).
Proof.
  split; [reflexivity|]. apply (New_reads_header new_file). reflexivity.
Defined.

(** X6: on a reader made by [New], whatever the file holds, the probing
    loop of [Get] does not turn forever: [table.length] turns are
    enough for [Get] to end, with a value, with the nil value, with an
    error, or with a panic of the runtime, which a file no writer made
    can cause in [getValueAt]. *)
Theorem Get_stops f c key :
  New f = Ok c -> snd (Get c key) <> Timeout.
Proof.
  intros HN. apply Get_returns. apply (New_Ok f c HN).
Qed.

Lemma Get_stops_witness :
  New ones_file = Ok ones_reader /\ snd (Get ones_reader (Some foo)) <> Timeout.
Proof.
  assert (H : New ones_file = Ok ones_reader) by (vm_compute; reflexivity).
  split; [exact H|].
  exact (Get_stops _ _ (Some foo) H).
Defined.

(** ** Records *)

(** X7: [getValueAt] at the offset of a record, as [Put] writes it (the
    two lengths, the key, the value), returns the value when the
    expected key is the key of the record, and the nil value, which
    [Get] takes for no match, for any other key, of the same length or
    not. *)
Theorem record_round_trip cdb pre post (k v : list byte) key :
  f_closed (reader cdb) = false ->
  f_data (reader cdb) = pre ++ record_bytes (k, v) ++ post ->
  Z.of_nat (length pre) + Z.of_nat (length (record_bytes (k, v))) < 2 ^ 63 ->
  (elems key = k -> getValueAt cdb (Z.of_nat (length pre)) key = Ok (Some v))
  /\ (elems key <> k -> getValueAt cdb (Z.of_nat (length pre)) key = Ok None).
Proof.
  intros Hc Hd Hsz.
  pose proof (getValueAt_record cdb pre post (k, v) key (Z.of_nat (length pre))
                Hc Hd eq_refl Hsz) as H.
  cbn [fst snd] in H. split; intros Hk; rewrite H.
  - rewrite decide_True by exact Hk. reflexivity.
  - rewrite decide_False by exact Hk. reflexivity.
Qed.

Lemma record_round_trip_witness :
  f_closed (reader record_reader) = false /\
  f_data (reader record_reader) = bar ++ record_bytes (foo, bar) ++ foo /\
  Z.of_nat (length bar) + Z.of_nat (length (record_bytes (foo, bar))) < 2 ^ 63 /\
  (elems (Some foo) = foo ->
     getValueAt record_reader (Z.of_nat (length bar)) (Some foo) = Ok (Some bar))
  /\ (elems (Some foo) <> foo ->
     getValueAt record_reader (Z.of_nat (length bar)) (Some foo) = Ok None).
Proof.
  split; [reflexivity|]. split; [reflexivity|].
  split; [vm_compute; reflexivity|].
  apply (record_round_trip record_reader bar foo foo bar (Some foo));
    [reflexivity|reflexivity|vm_compute; reflexivity].
Defined.

(** X8: a descriptor that points behind the end of the file is found
    out at the lookup: when the slot [Get] probes first does not lie in
    the file, [Get] returns the error of the read and no value. *)
Theorem Get_past_end c key :
  f_closed (reader c) = false ->
  0 < t_length (table_for c key) -> 0 <= t_offset (table_for c key) ->
  t_offset (table_for c key) + 16 * t_length (table_for c key) < 2 ^ 63 ->
  Z.of_nat (length (f_data (reader c)))
    < t_offset (table_for c key) + 16 * home_slot c key + 16 ->
  snd (Get c key) = Err ErrIO.
Proof.
  unfold home_slot, table_for.
  set (hash := hash_of key).
  set (tbl := nth (Z.to_nat (Z.land hash 255)) (header c) zero_table).
  intros Hc HL Ho Hfit Hend. unfold Get.
  change (Sum64 (fst (Write (Reset (hasher c)) key))) with hash. fold tbl.
  destruct (Z.eqb_spec (t_length tbl) 0) as [E|_]; [lia|]. cbn [snd].
  set (st := Z.shiftr hash 8 mod t_length tbl) in *.
  assert (Hst : 0 <= st < t_length tbl) by (apply Z.mod_pos_bound; lia).
  destruct (Z.to_nat (t_length tbl)) as [|fuel] eqn:Ef; [lia|].
  cbn [Get_loop reader].
  rewrite (u64_small (16 * st)) by lia. rewrite u64_small by lia.
  rewrite readTuple_short; [reflexivity|exact Hc|lia|right; lia].
Qed.

Lemma Get_past_end_witness :
  f_closed (reader truncated_reader) = false /\
  0 < t_length (table_for truncated_reader (Some foo)) /\
  0 <= t_offset (table_for truncated_reader (Some foo)) /\
  t_offset (table_for truncated_reader (Some foo))
    + 16 * t_length (table_for truncated_reader (Some foo)) < 2 ^ 63 /\
  Z.of_nat (length (f_data (reader truncated_reader)))
    < t_offset (table_for truncated_reader (Some foo))
      + 16 * home_slot truncated_reader (Some foo) + 16 /\
  snd (Get truncated_reader (Some foo)) = Err ErrIO.
Proof.
  split; [reflexivity|]. split; [vm_compute; reflexivity|].
  split; [vm_compute; discriminate|]. split; [vm_compute; reflexivity|].
  split; [vm_compute; reflexivity|].
  apply (Get_past_end truncated_reader (Some foo));
    [reflexivity|vm_compute; reflexivity|vm_compute; discriminate
    |vm_compute; reflexivity|vm_compute; reflexivity].
Defined.

(** ** What the slots of a finalized file hold *)

(** The probe finds nothing when every slot it can read is either
    another hash or a record with another key. *)
Lemma Get_loop_None cdb key hash tbl startingSlot :
  0 <= startingSlot < t_length tbl ->
  (forall s, 0 <= s < t_length tbl ->
     exists h off,
       readTuple (reader cdb) (u64 (t_offset tbl + u64 (16 * s))) = Ok (h, off)
       /\ (h = hash -> h <> 0 -> getValueAt cdb off key = Ok None)) ->
  forall fuel slot j,
    (0 < fuel)%nat -> 0 <= j ->
    Z.of_nat fuel + j = t_length tbl ->
    slot = (startingSlot + j) mod t_length tbl ->
    Get_loop fuel cdb key hash tbl startingSlot slot = Ok None.
Proof.
  intros Hs Hread. induction fuel as [|fuel IH]; intros slot j Hf Hj Hsum Hslot; [lia|].
  cbn [Get_loop].
  destruct (Hread slot) as (h & off & Hrd & Hno).
  { subst slot. apply Z.mod_pos_bound. lia. }
  rewrite Hrd. cbn [bind].
  destruct (Z.eqb_spec h 0) as [E|NE]; [reflexivity|].
  assert (Hnext : (if (slot + 1) mod t_length tbl =? startingSlot
                   then Ok None
                   else Get_loop fuel cdb key hash tbl startingSlot
                          ((slot + 1) mod t_length tbl)) = Ok None).
  { destruct (Z.eqb_spec ((slot + 1) mod t_length tbl) startingSlot) as [E'|NE'];
      [reflexivity|].
    assert (Hs' : (slot + 1) mod t_length tbl = (startingSlot + (j + 1)) mod t_length tbl).
    { subst slot. rewrite Z.add_mod_idemp_l by lia. f_equal. lia. }
    destruct fuel as [|fuel'].
    - exfalso. apply NE'. rewrite Hs'.
      replace (startingSlot + (j + 1)) with (startingSlot + 1 * t_length tbl) by lia.
      rewrite Z.mod_add by lia. apply Z.mod_small. lia.
    - apply (IH _ (j + 1)); solve [lia | exact Hs']. }
  destruct (Z.eqb_spec h hash) as [Eh|NEh]; [|exact Hnext].
  rewrite (Hno Eh NE). cbn [bind]. exact Hnext.
Qed.

Section Slots.
Variables (kvs : list (list byte * list byte)) (data : list byte) (index : Header).
Variable cdb : CDB.
Hypothesis Hfin : Finalized kvs data index.
Hypothesis Hsize : file_size kvs < 2 ^ 63.
Hypothesis Hdata : f_data (reader cdb) = data.
Hypothesis Hopen : f_closed (reader cdb) = false.
Hypothesis Hheader : header cdb = index.

(** A slot of subtable [i] holds the empty pair or the entry of a pair
    put whose key has the subtable [i]. *)
Lemma slot_contents i s :
  (i < 256)%nat ->
  0 <= s < t_length (nth i (header cdb) zero_table) ->
  exists x,
    read_slot cdb i s = Ok (e_hash x, e_offset x)
    /\ (x = zero_entry
        \/ exists kv, kv ∈ in_table i kvs /\ rec_at (records_bytes kvs) x kv).
Proof.
  intros Hi Hs. unfold read_slot.
  destruct (fin_tables _ _ _ Hfin i Hi) as (es & sorted & pre & post & Hes & Hplace & Hidx & Hd).
  rewrite Hheader, nth_lookup, Hidx in Hs |- *.
  unfold default, from_option, id in Hs |- *. cbn [t_length t_offset] in Hs |- *.
  pose proof (records_fit kvs Hsize) as Hfit.
  pose proof (place_all_length _ _ _ _ Hplace) as Hl. rewrite length_replicate in Hl.
  assert (HQ : Forall (fun x => wf_entry x /\
                 (x = zero_entry
                  \/ exists kv, kv ∈ in_table i kvs /\ rec_at (records_bytes kvs) x kv))
                 sorted).
  { eapply place_all_Forall; [exact Hplace| |].
    - apply Forall_replicate. split; [|left; reflexivity].
      unfold wf_entry, zero_entry. simpl. lia.
    - eapply Forall2_Forall_l; [exact Hes|].
      apply list.Forall_forall. intros kv Hkv x Hx.
      split; [exact (proj1 (rec_at_wf _ _ _ Hx Hfit))|]. right. eauto. }
  destruct (lookup_lt_is_Some_2 sorted (Z.to_nat s) ltac:(lia)) as [x Hx].
  rewrite List.Forall_forall in HQ.
  destruct (HQ x) as [Hwf Hx']; [apply list_elem_of_In, list_elem_of_lookup; eauto|].
  exists x. split; [|exact Hx'].
  apply (readTuple_slot kvs data index cdb Hfin Hsize Hdata Hopen pre sorted post);
    [exact Hd|exact Hx|lia|exact Hwf].
Qed.

Lemma in_table_In i kv : kv ∈ in_table i kvs -> In kv kvs /\ table_of kv = i.
Proof.
  unfold in_table. intros H. apply list_elem_of_filter in H as [Ht Hin].
  split; [apply list_elem_of_In; exact Hin|exact Ht].
Qed.

(** Every slot that is not the empty pair belongs to a pair that was
    put: its hash is the hash of the key, the low byte of the hash is the
    index of the subtable, and the record at its offset is the record of
    that pair. *)
Lemma slot_record i s h off :
  (i < 256)%nat ->
  0 <= s < t_length (nth i (header cdb) zero_table) ->
  read_slot cdb i s = Ok (h, off) ->
  (h, off) <> (0, 0) ->
  exists k v, In (k, v) kvs
    /\ h = hash_of (Some k) /\ Z.land h 255 = Z.of_nat i
    /\ getValueAt cdb off (Some k) = Ok (Some v).
Proof.
  intros Hi Hs Hread Hne.
  destruct (slot_contents i s Hi Hs) as (x & Hx & Hcase).
  rewrite Hread in Hx. injection Hx as Hh Ho.
  destruct Hcase as [->|(kv & Hkv & Hrec)]; [exfalso; apply Hne; subst; reflexivity|].
  destruct (in_table_In i kv Hkv) as [Hin Ht].
  destruct kv as [k v]. exists k, v.
  split; [exact Hin|]. split; [subst h; apply Hrec|]. split.
  - subst h. rewrite (proj1 Hrec). cbn [fst].
    unfold table_of in Ht. cbn [fst] in Ht.
    pose proof (land_255_range (hash_of (Some k))). lia.
  - subst off.
    rewrite (getValueAt_entry kvs data index cdb Hfin Hsize Hdata Hopen x (k, v) (Some k) Hrec).
    cbn [fst snd elems]. rewrite decide_True by reflexivity. reflexivity.
Qed.

(** A key that was not put is not found. *)
Lemma Get_absent key :
  Forall (fun kv => fst kv <> elems key) kvs ->
  snd (Get cdb key) = Ok None.
Proof.
  intros Habs. unfold Get.
  change (Sum64 (fst (Write (Reset (hasher cdb)) key))) with (hash_of key).
  set (hash := hash_of key).
  set (i := Z.to_nat (Z.land hash 255)).
  assert (Hi : (i < 256)%nat) by (pose proof (land_255_range hash); lia).
  set (tbl := nth i (header cdb) zero_table).
  destruct (Z.eqb_spec (t_length tbl) 0) as [E|NE]; [reflexivity|]. cbn [snd].
  pose proof (Finalized_table_length kvs data index cdb Hfin Hheader i) as HL. fold tbl in HL.
  assert (Hst : 0 <= Z.shiftr hash 8 mod t_length tbl < t_length tbl)
    by (apply Z.mod_pos_bound; lia).
  apply (Get_loop_None _ key hash tbl _ Hst) with (j := 0); [|lia|lia|lia|].
  - cbn [reader]. intros s Hs.
    destruct (slot_contents i s Hi Hs) as (x & Hx & Hcase).
    unfold read_slot in Hx. fold tbl in Hx.
    exists (e_hash x), (e_offset x). split; [exact Hx|].
    intros Heq Hnz.
    destruct Hcase as [->|(kv & Hkv & Hrec)]; [exfalso; apply Hnz; reflexivity|].
    destruct (in_table_In i kv Hkv) as [Hin _].
    change (getValueAt (mkCDB (reader cdb) (fst (Write (Reset (hasher cdb)) key)) (header cdb))
              (e_offset x) key) with (getValueAt cdb (e_offset x) key).
    rewrite (getValueAt_entry kvs data index cdb Hfin Hsize Hdata Hopen x kv key Hrec).
    rewrite decide_False; [reflexivity|].
    rewrite List.Forall_forall in Habs. intros E. exact (Habs kv Hin (eq_sym E)).
  - rewrite Z.add_0_r. symmetry. apply Z.mod_small. exact Hst.
Qed.
End Slots.

(** ** The runs, once more *)

Lemma length_records_bytes kvs :
  Z.of_nat (length (records_bytes kvs)) = records_size kvs.
Proof.
  unfold records_bytes. induction kvs as [|kv kvs IH]; [reflexivity|].
  cbn [map concat records_size fold_right].
  rewrite length_app, Nat2Z.inj_add, length_record_bytes.
  fold (records_size kvs). lia.
Qed.

(** The writer of a run before finalize, what finalize makes of it, and
    the two readers. *)
Lemma runs_shape kvs :
  file_size kvs < 2 ^ 63 ->
  exists w index data,
    put_run (puts kvs) = Ok w /\ Winv w kvs
    /\ finalize w = (mkWriter (mkSink data 4096 false true true) (entries w) false None
                              (Z.of_nat (length data)) (estimatedFooterSize w),
                     Ok index)
    /\ Finalized kvs data index
    /\ freeze_run (puts kvs) = Ok (mkCDB (mkSink data 4096 false true true) newCDBHash index)
    /\ close_open_run (puts kvs) = Ok (mkCDB (mkSink data 0 false true true) newCDBHash index).
Proof.
  intros Hsz.
  destruct Create_inv as (w0 & HC & Hinv0).
  destruct (PutAll_inv kvs w0 [] Hinv0 Hsz) as (w1 & HP & Hinv1). cbn [app] in Hinv1.
  destruct (finalize_spec w1 kvs Hinv1 Hsz) as (index & data & Hf & Hfin).
  exists w1, index, data.
  split; [unfold put_run; rewrite HC; cbn [bind]; rewrite HP; reflexivity|].
  split; [exact Hinv1|]. split; [exact Hf|]. split; [exact Hfin|]. split.
  - unfold freeze_run. rewrite HC. cbn [bind]. rewrite HP.
    unfold Freeze, once_finalize. rewrite (inv_once _ _ Hinv1), Hf. reflexivity.
  - unfold close_open_run. rewrite HC. cbn [bind]. rewrite HP.
    unfold Close, once_finalize. rewrite (inv_once _ _ Hinv1), Hf.
    cbn. unfold Open, New. cbn [f_data].
    destruct (fin_records _ _ _ Hfin) as [tl Htl].
    apply (readHeader_encode _ _ _ index (records_bytes kvs ++ tl));
      [reflexivity|exact Htl|exact (fin_len _ _ _ Hfin)
      |exact (Finalized_wf_header _ _ _ Hfin Hsz)].
Qed.

Lemma ReadAt_pos data p1 p2 a1 b1 a2 b2 n off :
  ReadAt (mkSink data p1 false a1 b1) n off = ReadAt (mkSink data p2 false a2 b2) n off.
Proof. reflexivity. Qed.

Lemma Get_loop_pos data p1 p2 a1 b1 a2 b2 h hd key hash tbl st :
  forall fuel slot,
    Get_loop fuel (mkCDB (mkSink data p1 false a1 b1) h hd) key hash tbl st slot
    = Get_loop fuel (mkCDB (mkSink data p2 false a2 b2) h hd) key hash tbl st slot.
Proof.
  induction fuel as [|fuel IH]; intros slot; [reflexivity|].
  cbn [Get_loop reader].
  change (readTuple (mkSink data p1 false a1 b1)) with (readTuple (mkSink data p2 false a2 b2)).
  destruct (readTuple _ _) as [[slotHash offset]| |]; cbn [bind]; try reflexivity.
  change (getValueAt (mkCDB (mkSink data p1 false a1 b1) h hd))
    with (getValueAt (mkCDB (mkSink data p2 false a2 b2) h hd)).
  rewrite !IH. reflexivity.
Qed.

(** X9: the file can be read back.  The reader [Open] makes of the file
    after [Close] has the header [Freeze] hands to its reader, decoded
    from the first 4096 bytes, over the same bytes, and [Get] returns on
    it what it returns on the reader of [Freeze], for every key. *)
Theorem reopened_reader_agrees kvs :
  file_size kvs < 2 ^ 63 ->
  exists c1 c2, readers kvs c1 c2
    /\ header c2 = header c1
    /\ f_data (reader c2) = f_data (reader c1)
    /\ forall key, snd (Get c2 key) = snd (Get c1 key).
Proof.
  intros Hsz.
  destruct (runs_shape kvs Hsz) as (w & index & data & _ & _ & _ & _ & H1 & H2).
  eexists. eexists. split; [split; [exact H1|exact H2]|].
  split; [reflexivity|]. split; [reflexivity|].
  intros key. unfold Get. cbn [header hasher reader].
  destruct (_ =? 0); [reflexivity|]. cbn [snd]. apply Get_loop_pos.
Qed.

Lemma reopened_reader_agrees_witness :
  file_size [(foo, bar)] < 2 ^ 63 /\
  exists c1 c2, readers [(foo, bar)] c1 c2
    /\ header c2 = header c1
    /\ f_data (reader c2) = f_data (reader c1)
    /\ forall key, snd (Get c2 key) = snd (Get c1 key).
Proof.
  split; [vm_compute; reflexivity|].
  apply (reopened_reader_agrees [(foo, bar)]). vm_compute. reflexivity.
Defined.

(** X10: the layout of the file.  The finalized file has 4096 bytes of
    header, the records, and 32 bytes of slots for every put; its first
    4096 bytes encode the header of the reader; the records follow the
    header at once, in the order of the puts. *)
Theorem file_layout kvs :
  file_size kvs < 2 ^ 63 ->
  exists c1 c2, readers kvs c1 c2 /\
    forall c, c = c1 \/ c = c2 ->
      Z.of_nat (length (f_data (reader c)))
        = headerSize + records_size kvs + 32 * Z.of_nat (length kvs)
      /\ take 4096 (f_data (reader c)) = encode_header (header c)
      /\ sub (f_data (reader c)) headerSize (headerSize + records_size kvs)
         = records_bytes kvs.
Proof.
  intros Hsz.
  destruct (runs_shape kvs Hsz) as (w & index & data & _ & _ & _ & Hfin & H1 & H2).
  eexists. eexists. split; [split; [exact H1|exact H2]|].
  assert (Hall : Z.of_nat (length data)
                   = headerSize + records_size kvs + 32 * Z.of_nat (length kvs)
                 /\ take 4096 data = encode_header index
                 /\ sub data headerSize (headerSize + records_size kvs) = records_bytes kvs).
  { pose proof (length_header_bytes kvs data index Hfin) as Hhl.
    destruct (fin_records _ _ _ Hfin) as [tl Htl].
    split; [|split].
    - rewrite (fin_size _ _ _ Hfin). unfold file_size.
      rewrite length_records_bytes. reflexivity.
    - rewrite Htl. apply take_app_length'. symmetry. exact Hhl.
    - unfold sub. rewrite Htl.
      change (Z.to_nat headerSize) with 4096%nat.
      rewrite drop_app_length' by (symmetry; exact Hhl).
      apply take_app_length'. pose proof (length_records_bytes kvs). lia. }
  intros c [->| ->]; exact Hall.
Qed.

Lemma file_layout_witness :
  file_size [(foo, bar)] < 2 ^ 63 /\
  exists c1 c2, readers [(foo, bar)] c1 c2 /\
    forall c, c = c1 \/ c = c2 ->
      Z.of_nat (length (f_data (reader c)))
        = headerSize + records_size [(foo, bar)] + 32 * Z.of_nat (length [(foo, bar)])
      /\ take 4096 (f_data (reader c)) = encode_header (header c)
      /\ sub (f_data (reader c)) headerSize (headerSize + records_size [(foo, bar)])
         = records_bytes [(foo, bar)].
Proof.
  split; [vm_compute; reflexivity|].
  apply (file_layout [(foo, bar)]). vm_compute. reflexivity.
Defined.

(** X11: the counters of the writer are exact.  After the puts,
    [bufferedOffset] is the size of the header and the records,
    [estimatedFooterSize] is 32 for every put, and their sum is the
    size of the file finalize writes. *)
Theorem writer_counters kvs :
  file_size kvs < 2 ^ 63 ->
  exists w c, put_run (puts kvs) = Ok w /\ snd (Freeze w) = Ok c
    /\ bufferedOffset w = headerSize + records_size kvs
    /\ estimatedFooterSize w = 32 * Z.of_nat (length kvs)
    /\ bufferedOffset w + estimatedFooterSize w = Z.of_nat (length (f_data (reader c))).
Proof.
  intros Hsz.
  destruct (runs_shape kvs Hsz) as (w & index & data & HP & Hinv & Hf & Hfin & _ & _).
  exists w, (mkCDB (mkSink data 4096 false true true) newCDBHash index).
  split; [exact HP|]. split.
  - unfold Freeze, once_finalize. rewrite (inv_once _ _ Hinv), Hf. reflexivity.
  - cbn [reader f_data].
    rewrite (inv_off _ _ Hinv), (inv_footer _ _ Hinv), (fin_size _ _ _ Hfin).
    unfold file_size. rewrite length_records_bytes. repeat split; lia.
Qed.

Lemma writer_counters_witness :
  file_size [(foo, bar)] < 2 ^ 63 /\
  exists w c, put_run (puts [(foo, bar)]) = Ok w /\ snd (Freeze w) = Ok c
    /\ bufferedOffset w = headerSize + records_size [(foo, bar)]
    /\ estimatedFooterSize w = 32 * Z.of_nat (length [(foo, bar)])
    /\ bufferedOffset w + estimatedFooterSize w = Z.of_nat (length (f_data (reader c))).
Proof.
  split; [vm_compute; reflexivity|].
  apply (writer_counters [(foo, bar)]). vm_compute. reflexivity.
Defined.

(** X12: absence.  A key that no put carried is not found: [Get]
    returns the nil value without an error, whatever the hash of the key
    and whatever else the file holds. *)
Theorem absent_key_not_found kvs key :
  file_size kvs < 2 ^ 63 ->
  Forall (fun kv => fst kv <> elems key) kvs ->
  exists c1 c2, readers kvs c1 c2
    /\ snd (Get c1 key) = Ok None /\ snd (Get c2 key) = Ok None.
Proof.
  intros Hsz Habs.
  destruct (runs_shape kvs Hsz) as (w & index & data & _ & _ & _ & Hfin & H1 & H2).
  set (c1 := mkCDB (mkSink data 4096 false true true) newCDBHash index) in *.
  set (c2 := mkCDB (mkSink data 0 false true true) newCDBHash index) in *.
  exists c1, c2. split; [split; [exact H1|exact H2]|]. split.
  - exact (Get_absent kvs data index c1 Hfin Hsz eq_refl eq_refl eq_refl key Habs).
  - exact (Get_absent kvs data index c2 Hfin Hsz eq_refl eq_refl eq_refl key Habs).
Qed.

Lemma absent_key_not_found_witness :
  file_size [(foo, bar)] < 2 ^ 63 /\
  Forall (fun kv : list byte * list byte => fst kv <> elems (Some bar)) [(foo, bar)] /\
  exists c1 c2, readers [(foo, bar)] c1 c2
    /\ snd (Get c1 (Some bar)) = Ok None /\ snd (Get c2 (Some bar)) = Ok None.
Proof.
  split; [vm_compute; reflexivity|].
  split; [repeat constructor; discriminate|].
  apply (absent_key_not_found [(foo, bar)] (Some bar)).
  - vm_compute. reflexivity.
  - repeat constructor. discriminate.
Defined.

(** X13: no slot is stale.  In the finalized file every slot that is
    not the empty pair belongs to a pair that was put: its hash is the
    hash of the key, the low byte of that hash is the index of the
    subtable, and [getValueAt] at its offset with that key returns the
    value of the pair. *)
Theorem slots_point_to_records kvs :
  file_size kvs < 2 ^ 63 ->
  exists c1 c2, readers kvs c1 c2 /\
    forall c, c = c1 \/ c = c2 ->
      forall i s h off,
        (i < 256)%nat -> 0 <= s < t_length (nth i (header c) zero_table) ->
        read_slot c i s = Ok (h, off) -> (h, off) <> (0, 0) ->
        exists k v, In (k, v) kvs
          /\ h = hash_of (Some k) /\ Z.land h 255 = Z.of_nat i
          /\ getValueAt c off (Some k) = Ok (Some v).
Proof.
  intros Hsz.
  destruct (runs_shape kvs Hsz) as (w & index & data & _ & _ & _ & Hfin & H1 & H2).
  set (c1 := mkCDB (mkSink data 4096 false true true) newCDBHash index) in *.
  set (c2 := mkCDB (mkSink data 0 false true true) newCDBHash index) in *.
  exists c1, c2. split; [split; [exact H1|exact H2]|].
  intros c [->| ->] i s h off.
  - exact (slot_record kvs data index c1 Hfin Hsz eq_refl eq_refl eq_refl i s h off).
  - exact (slot_record kvs data index c2 Hfin Hsz eq_refl eq_refl eq_refl i s h off).
Qed.

Lemma slots_point_to_records_witness :
  file_size [(foo, bar)] < 2 ^ 63 /\
  exists c1 c2, readers [(foo, bar)] c1 c2 /\
    forall c, c = c1 \/ c = c2 ->
      forall i s h off,
        (i < 256)%nat -> 0 <= s < t_length (nth i (header c) zero_table) ->
        read_slot c i s = Ok (h, off) -> (h, off) <> (0, 0) ->
        exists k v, In (k, v) [(foo, bar)]
          /\ h = hash_of (Some k) /\ Z.land h 255 = Z.of_nat i
          /\ getValueAt c off (Some k) = Ok (Some v).
Proof.
  split; [vm_compute; reflexivity|].
  apply (slots_point_to_records [(foo, bar)]). vm_compute. reflexivity.
Defined.

(** ** After finalize *)

Lemma Get_zero_header c key :
  header c = replicate 256 zero_table -> snd (Get c key) = Ok None.
Proof.
  intros Hh. apply Get_empty_table. intros i Hi.
  rewrite Hh, nth_lookup, lookup_replicate_2 by exact Hi. reflexivity.
Qed.

(** X14: only the call that runs finalize hands the header over.  A
    [Freeze] after a [Freeze], or after a [Close], skips the body of the
    [Once], returns a reader with the zero header of [var header Header]
    over the finalized file, and on that reader [Get] finds no key, the
    keys put among them. *)
Theorem later_Freeze_finds_nothing kvs :
  file_size kvs < 2 ^ 63 ->
  exists w, put_run (puts kvs) = Ok w
    /\ (exists w1 c1 w2 c2,
          Freeze w = (w1, Ok c1) /\ Freeze w1 = (w2, Ok c2)
          /\ f_data (reader c2) = f_data (reader c1)
          /\ header c2 = replicate 256 zero_table
          /\ forall key, snd (Get c2 key) = Ok None)
    /\ (exists w1 w2 c2,
          Close w = (w1, Ok tt) /\ Freeze w1 = (w2, Ok c2)
          /\ header c2 = replicate 256 zero_table
          /\ forall key, snd (Get c2 key) = Ok None).
Proof.
  intros Hsz.
  destruct (runs_shape kvs Hsz) as (w & index & data & HP & Hinv & Hf & _ & _ & _).
  exists w. split; [exact HP|]. split.
  - do 4 eexists.
    split; [unfold Freeze, once_finalize; rewrite (inv_once _ _ Hinv), Hf; reflexivity|].
    split; [reflexivity|]. cbn.
    split; [reflexivity|]. split; [reflexivity|].
    intros key. apply Get_zero_header. reflexivity.
  - do 3 eexists.
    split; [unfold Close, once_finalize; rewrite (inv_once _ _ Hinv), Hf; reflexivity|].
    split; [reflexivity|]. cbn.
    split; [reflexivity|].
    intros key. apply Get_zero_header. reflexivity.
Qed.

Lemma later_Freeze_finds_nothing_witness :
  file_size [(foo, bar)] < 2 ^ 63 /\
  exists w, put_run (puts [(foo, bar)]) = Ok w
    /\ (exists w1 c1 w2 c2,
          Freeze w = (w1, Ok c1) /\ Freeze w1 = (w2, Ok c2)
          /\ f_data (reader c2) = f_data (reader c1)
          /\ header c2 = replicate 256 zero_table
          /\ forall key, snd (Get c2 key) = Ok None)
    /\ (exists w1 w2 c2,
          Close w = (w1, Ok tt) /\ Freeze w1 = (w2, Ok c2)
          /\ header c2 = replicate 256 zero_table
          /\ forall key, snd (Get c2 key) = Ok None).
Proof.
  split; [vm_compute; reflexivity|].
  apply (later_Freeze_finds_nothing [(foo, bar)]). vm_compute. reflexivity.
Defined.

(** X15: the writer is spent after finalize.  [finalize] sets
    [bufferedWriter] to nil, so a [Put] of a key and a value after
    [Freeze] or after [Close] panics in its first write instead of
    adding the pair. *)
Theorem Put_after_finalize_panics kvs k v :
  file_size kvs < 2 ^ 63 ->
  exists w, put_run (puts kvs) = Ok w
    /\ snd (Put (fst (Freeze w)) (Some k) (Some v)) = Err ErrPanic
    /\ snd (Put (fst (Close w)) (Some k) (Some v)) = Err ErrPanic.
Proof.
  intros Hsz.
  destruct (runs_shape kvs Hsz) as (w & index & data & HP & Hinv & Hf & _ & _ & _).
  exists w. split; [exact HP|]. split.
  - unfold Freeze, once_finalize. rewrite (inv_once _ _ Hinv), Hf. reflexivity.
  - unfold Close, once_finalize. rewrite (inv_once _ _ Hinv), Hf. reflexivity.
Qed.

Lemma Put_after_finalize_panics_witness :
  file_size [(foo, bar)] < 2 ^ 63 /\
  exists w, put_run (puts [(foo, bar)]) = Ok w
    /\ snd (Put (fst (Freeze w)) (Some bar) (Some foo)) = Err ErrPanic
    /\ snd (Put (fst (Close w)) (Some bar) (Some foo)) = Err ErrPanic.
Proof.
  split; [vm_compute; reflexivity|].
  apply (Put_after_finalize_panics [(foo, bar)] bar foo). vm_compute. reflexivity.
Defined.

(** X16: [CDB.Close] closes the database to further reads.  On the
    reader of a run, [Close] succeeds once; afterwards [Get] with a key
    that was put returns the error of the closed file and no value, and a
    second [Close] returns that error too. *)
Theorem Get_after_Close_fails kvs k v :
  file_size kvs < 2 ^ 63 ->
  In (k, v) kvs ->
  exists c c', freeze_run (puts kvs) = Ok c
    /\ CDB_Close c = (c', Ok tt)
    /\ snd (Get c' (Some k)) = Err ErrClosed
    /\ snd (CDB_Close c') = Err ErrClosed.
Proof.
  intros Hsz Hin.
  destruct (runs_shape kvs Hsz) as (w & index & data & _ & _ & _ & Hfin & H1 & _).
  set (c' := mkCDB (mkSink data 4096 true true true) newCDBHash index).
  exists (mkCDB (mkSink data 4096 false true true) newCDBHash index), c'.
  split; [exact H1|]. split; [reflexivity|]. split; [|reflexivity].
  set (i := table_of (k, v)).
  assert (Hi : (i < 256)%nat) by apply table_of_lt.
  pose proof (header_length kvs data index c' Hfin eq_refl i Hi) as HL.
  assert (Hne : (0 < length (in_table i kvs))%nat).
  { assert (Hm : (k, v) ∈ in_table i kvs).
    { unfold in_table. apply list_elem_of_filter. split; [reflexivity|].
      apply list_elem_of_In. exact Hin. }
    destruct (in_table i kvs); [inversion Hm|simpl; lia]. }
  unfold Get.
  change (Sum64 (fst (Write (Reset (hasher c')) (Some k)))) with (hash_of (Some k)).
  change (Z.to_nat (Z.land (hash_of (Some k)) 255)) with i.
  set (tbl := nth i (header c') zero_table) in *.
  destruct (Z.eqb_spec (t_length tbl) 0) as [E|_]; [lia|]. cbn [snd].
  destruct (Z.to_nat (t_length tbl)) as [|fuel] eqn:Ef; [lia|].
  reflexivity.
Qed.

Lemma Get_after_Close_fails_witness :
  file_size [(foo, bar)] < 2 ^ 63 /\
  In (foo, bar) [(foo, bar)] /\
  exists c c', freeze_run (puts [(foo, bar)]) = Ok c
    /\ CDB_Close c = (c', Ok tt)
    /\ snd (Get c' (Some foo)) = Err ErrClosed
    /\ snd (CDB_Close c') = Err ErrClosed.
Proof.
  split; [vm_compute; reflexivity|]. split; [left; reflexivity|].
  apply (Get_after_Close_fails [(foo, bar)] foo bar); [vm_compute; reflexivity|].
  left. reflexivity.
Defined.

(** X17: [Writer.Close] finalizes and closes.  For every run the first
    [Close] returns without error and leaves the sink closed; a second
    [Close] does not touch the content of the file and returns the error
    of closing a closed file. *)
Theorem Close_twice kvs :
  file_size kvs < 2 ^ 63 ->
  exists w w1 w2, put_run (puts kvs) = Ok w
    /\ Close w = (w1, Ok tt) /\ f_closed (writer w1) = true
    /\ Close w1 = (w2, Err ErrClosed)
    /\ f_data (writer w2) = f_data (writer w1)
    /\ Z.of_nat (length (f_data (writer w1))) = file_size kvs.
Proof.
  intros Hsz.
  destruct (runs_shape kvs Hsz) as (w & index & data & HP & Hinv & Hf & Hfin & _ & _).
  exists w. do 2 eexists. split; [exact HP|].
  split; [unfold Close, once_finalize; rewrite (inv_once _ _ Hinv), Hf; reflexivity|].
  cbn. split; [reflexivity|]. split; [reflexivity|]. split; [reflexivity|].
  exact (fin_size _ _ _ Hfin).
Qed.

Lemma Close_twice_witness :
  file_size [(foo, bar)] < 2 ^ 63 /\
  exists w w1 w2, put_run (puts [(foo, bar)]) = Ok w
    /\ Close w = (w1, Ok tt) /\ f_closed (writer w1) = true
    /\ Close w1 = (w2, Err ErrClosed)
    /\ f_data (writer w2) = f_data (writer w1)
    /\ Z.of_nat (length (f_data (writer w1))) = file_size [(foo, bar)].
Proof.
  split; [vm_compute; reflexivity|].
  apply (Close_twice [(foo, bar)]). vm_compute. reflexivity.
Defined.

(** ** The offsets of the subtables *)

Lemma finalize_tables_offsets ents : forall idx index buf off index' buf' off',
  finalize_tables ents idx index buf off = Ok (index', buf', off') ->
  NoDup idx ->
  off = headerSize + Z.of_nat (length buf) ->
  off + 32 * Z.of_nat (slots_total ents idx) < 2 ^ 63 ->
  forall pre i post, idx = pre ++ i :: post -> (i < length index)%nat ->
    index' !! i = Some (mkTable (off + 32 * Z.of_nat (slots_total ents pre))
                                (2 * Z.of_nat (length (nth i ents [])))).
Proof.
  assert (Hhs : headerSize = 4096) by reflexivity.
  induction idx as [|i0 idx IH];
    intros index buf off index' buf' off' Hft Hnd Hoff Hsz pre i post Hidx Hi.
  - destruct pre; discriminate.
  - apply list.NoDup_cons in Hnd as [Hni Hnd].
    rewrite slots_total_cons in Hsz.
    set (es := nth i0 ents []) in *.
    destruct (place_all_table es) as [sorted Hsorted].
    pose proof (place_all_length _ _ _ _ Hsorted) as Hlen.
    rewrite length_replicate in Hlen.
    cbn [finalize_tables] in Hft. fold es in Hft.
    rewrite tableSize_eq in Hft by lia. rewrite Hsorted in Hft. cbn [bind] in Hft.
    rewrite write_sorted_spec in Hft by lia.
    rewrite u64_small in Hft by lia.
    assert (Hoff1 : off + 16 * Z.of_nat (length sorted)
                    = headerSize + Z.of_nat (length (buf ++ table_bytes sorted))).
    { rewrite length_app, Nat2Z.inj_add, length_table_bytes. lia. }
    destruct pre as [|p pre].
    + cbn [app] in Hidx. injection Hidx as <- <-.
      destruct (finalize_tables_spec ents idx
                  (<[i0 := mkTable off (2 * Z.of_nat (length es))]> index)
                  (buf ++ table_bytes sorted) (off + 16 * Z.of_nat (length sorted))
                  Hnd Hoff1 ltac:(lia))
        as (index'' & tl & Hft' & _ & _ & Hout & _).
      rewrite Hft in Hft'. injection Hft' as <- _ _.
      rewrite Hout by exact Hni.
      rewrite list_lookup_insert_eq by exact Hi.
      unfold slots_total. cbn. rewrite Z.add_0_r. reflexivity.
    + cbn [app] in Hidx. injection Hidx as <- ->.
      rewrite (IH _ _ _ _ _ _ Hft Hnd Hoff1 ltac:(lia) pre i post eq_refl)
        by (rewrite length_insert; exact Hi).
      rewrite slots_total_cons. fold es. do 2 f_equal. lia.
Qed.

Lemma finalize_Ok_tables w kvs wf index :
  Winv w kvs -> finalize w = (wf, Ok index) ->
  exists buf off,
    finalize_tables (entries w) (seq 0 256) (replicate 256 zero_table)
      (records_bytes kvs) (bufferedOffset w) = Ok (index, buf, off).
Proof.
  intros Hinv. unfold finalize. rewrite (inv_buf _ _ Hinv).
  destruct (finalize_tables _ _ _ _ _) as [[[index' buf] off]| |];
    [|discriminate|discriminate].
  destruct (File_Write _ _) as [w1| |]; [|discriminate|discriminate].
  destruct (Seek0 w1) as [w2| |]; [|discriminate|discriminate].
  destruct (File_Write w2 _) as [w3| |]; [|discriminate|discriminate].
  intros H. injection H as _ <-. eauto.
Qed.

Lemma slots_total_snoc ents idx i :
  slots_total ents (idx ++ [i])
  = (slots_total ents idx + length (nth i ents []))%nat.
Proof.
  unfold slots_total. rewrite map_app, sum_list_with_app. simpl. lia.
Qed.

(** X18: the subtables lie one behind the other.  The descriptor of
    subtable 0 points behind the last record; the descriptor of every
    other subtable points behind the last slot of the subtable before
    it, also when a subtable has no slot; the last subtable ends where
    the file ends. *)
Theorem subtables_contiguous kvs :
  file_size kvs < 2 ^ 63 ->
  exists c1 c2, readers kvs c1 c2 /\
    forall c, c = c1 \/ c = c2 ->
      t_offset (nth 0 (header c) zero_table) = headerSize + records_size kvs
      /\ (forall i, (S i < 256)%nat ->
            t_offset (nth (S i) (header c) zero_table)
            = t_offset (nth i (header c) zero_table)
              + 16 * t_length (nth i (header c) zero_table))
      /\ t_offset (nth 255 (header c) zero_table)
           + 16 * t_length (nth 255 (header c) zero_table)
         = Z.of_nat (length (f_data (reader c))).
Proof.
  intros Hsz.
  destruct (runs_shape kvs Hsz) as (w & index & data & _ & Hinv & Hf & Hfin & H1 & H2).
  destruct (finalize_Ok_tables w kvs _ index Hinv Hf) as (buf & off & Hft).
  assert (Hb : bufferedOffset w + 32 * Z.of_nat (slots_total (entries w) (seq 0 256)) < 2 ^ 63).
  { rewrite (inv_total _ _ Hinv), (inv_off _ _ Hinv). unfold file_size in Hsz. lia. }
  assert (Hat : forall i, (i < 256)%nat ->
            nth i index zero_table
            = mkTable (headerSize + records_size kvs
                       + 32 * Z.of_nat (slots_total (entries w) (seq 0 i)))
                      (2 * Z.of_nat (length (nth i (entries w) [])))).
  { intros i Hi.
    assert (Hseq : seq 0 256 = seq 0 i ++ i :: seq (S i) (255 - i)).
    { replace 256%nat with (i + S (255 - i))%nat by lia.
      rewrite seq_app. reflexivity. }
    rewrite nth_lookup.
    rewrite (finalize_tables_offsets _ _ _ _ _ _ _ _ Hft (NoDup_seq 0 256)
               (inv_off _ _ Hinv) Hb _ _ _ Hseq)
      by (rewrite length_replicate; exact Hi).
    unfold default, from_option, id.
    rewrite (inv_off _ _ Hinv), length_records_bytes. reflexivity. }
  assert (Hall : t_offset (nth 0 index zero_table) = headerSize + records_size kvs
      /\ (forall i, (S i < 256)%nat ->
            t_offset (nth (S i) index zero_table)
            = t_offset (nth i index zero_table) + 16 * t_length (nth i index zero_table))
      /\ t_offset (nth 255 index zero_table) + 16 * t_length (nth 255 index zero_table)
         = Z.of_nat (length data)).
  { split; [|split].
    - rewrite (Hat 0%nat) by lia. cbn [t_offset seq]. unfold slots_total. simpl. lia.
    - intros i Hi. rewrite (Hat (S i)), (Hat i) by lia. cbn [t_offset t_length].
      rewrite seq_S, slots_total_snoc. cbn [Nat.add]. lia.
    - rewrite (Hat 255%nat) by lia. cbn [t_offset t_length].
      pose proof (slots_total_snoc (entries w) (seq 0 255) 255) as Hs.
      change (seq 0 255 ++ [255%nat]) with (seq 0 256) in Hs.
      rewrite (inv_total _ _ Hinv) in Hs.
      rewrite (fin_size _ _ _ Hfin). unfold file_size. rewrite length_records_bytes. lia. }
  eexists. eexists. split; [split; [exact H1|exact H2]|].
  intros c [->| ->]; exact Hall.
Qed.

Lemma subtables_contiguous_witness :
  file_size [(foo, bar)] < 2 ^ 63 /\
  exists c1 c2, readers [(foo, bar)] c1 c2 /\
    forall c, c = c1 \/ c = c2 ->
      t_offset (nth 0 (header c) zero_table) = headerSize + records_size [(foo, bar)]
      /\ (forall i, (S i < 256)%nat ->
            t_offset (nth (S i) (header c) zero_table)
            = t_offset (nth i (header c) zero_table)
              + 16 * t_length (nth i (header c) zero_table))
      /\ t_offset (nth 255 (header c) zero_table)
           + 16 * t_length (nth 255 (header c) zero_table)
         = Z.of_nat (length (f_data (reader c))).
Proof.
  split; [vm_compute; reflexivity|].
  apply (subtables_contiguous [(foo, bar)]). vm_compute. reflexivity.
Defined.

(** ** Keys by their hash *)

(** X19: round trip for the keys whose hash is not zero.  For every
    finite sequence of puts with pairwise distinct keys, after finalize
    [Get] returns for every key put whose hash is not zero exactly the
    value put with it, on the reader of [Freeze] and on the reader of
    [Open]. *)
Theorem round_trip_nonzero_hash kvs :
  file_size kvs < 2 ^ 63 ->
  NoDup (map fst kvs) ->
  exists c1 c2, readers kvs c1 c2 /\
    forall k v, In (k, v) kvs -> hash_of (Some k) <> 0 ->
      snd (Get c1 (Some k)) = Ok (Some v) /\ snd (Get c2 (Some k)) = Ok (Some v).
Proof.
  intros Hsz Hnd.
  destruct (runs_spec kvs Hsz) as (c1 & c2 & Hr & [F1 O1] & [F2 O2]).
  exists c1, c2. split; [exact Hr|]. intros k v Hin Hnz.
  apply in_split in Hin as (kvs1 & kvs2 & Hkvs).
  assert (Hfirst : Forall (fun kv => fst kv <> k) kvs1).
  { rewrite Hkvs, map_app in Hnd. cbn [map fst] in Hnd.
    apply list.NoDup_app in Hnd as (_ & Hdis & _).
    apply list.Forall_forall. intros kv Hkv E.
    apply (Hdis (fst kv)); [apply list_elem_of_fmap_2; exact Hkv|].
    rewrite E. left. }
  split.
  - eapply (Get_first kvs _ _ c1 F1 Hsz eq_refl O1 eq_refl); eauto.
  - eapply (Get_first kvs _ _ c2 F2 Hsz eq_refl O2 eq_refl); eauto.
Qed.

Lemma round_trip_nonzero_hash_witness :
  file_size [(foo, bar); (bar, foo)] < 2 ^ 63 /\
  NoDup (map fst [(foo, bar); (bar, foo)]) /\
  exists c1 c2, readers [(foo, bar); (bar, foo)] c1 c2 /\
    forall k v, In (k, v) [(foo, bar); (bar, foo)] -> hash_of (Some k) <> 0 ->
      snd (Get c1 (Some k)) = Ok (Some v) /\ snd (Get c2 (Some k)) = Ok (Some v).
Proof.
  split; [vm_compute; reflexivity|].
  split; [apply (bool_decide_unpack _); vm_compute; exact I|].
  apply (round_trip_nonzero_hash [(foo, bar); (bar, foo)]).
  - vm_compute. reflexivity.
  - apply (bool_decide_unpack _). vm_compute. exact I.
Defined.

(** X20: the first put wins, for a key whose hash is not zero.  The
    pair (k, v) below is the first of the run with the key [k]; later
    pairs, with [k] again or not, do not change what [Get] returns for
    [k], which is [v]. *)
Theorem first_put_wins kvs kvs1 k v kvs2 :
  file_size kvs < 2 ^ 63 ->
  kvs = kvs1 ++ (k, v) :: kvs2 ->
  Forall (fun kv => fst kv <> k) kvs1 ->
  hash_of (Some k) <> 0 ->
  exists c1 c2, readers kvs c1 c2
    /\ snd (Get c1 (Some k)) = Ok (Some v)
    /\ snd (Get c2 (Some k)) = Ok (Some v).
Proof.
  intros Hsz Hkvs Hfirst Hnz.
  destruct (runs_spec kvs Hsz) as (c1 & c2 & Hr & [F1 O1] & [F2 O2]).
  exists c1, c2. split; [exact Hr|]. split.
  - eapply (Get_first kvs _ _ c1 F1 Hsz eq_refl O1 eq_refl); eauto.
  - eapply (Get_first kvs _ _ c2 F2 Hsz eq_refl O2 eq_refl); eauto.
Qed.

Lemma first_put_wins_witness :
  file_size [(foo, first_value); (foo, second_value)] < 2 ^ 63 /\
  [(foo, first_value); (foo, second_value)]
    = [] ++ (foo, first_value) :: [(foo, second_value)] /\
  Forall (fun kv : list byte * list byte => fst kv <> foo) [] /\
  hash_of (Some foo) <> 0 /\
  exists c1 c2, readers [(foo, first_value); (foo, second_value)] c1 c2
    /\ snd (Get c1 (Some foo)) = Ok (Some first_value)
    /\ snd (Get c2 (Some foo)) = Ok (Some first_value).
Proof.
  split; [vm_compute; reflexivity|].
  split; [reflexivity|].
  split; [constructor|].
  split; [vm_compute; discriminate|].
  apply (first_put_wins [(foo, first_value); (foo, second_value)]
           [] foo first_value [(foo, second_value)]).
  - vm_compute. reflexivity.
  - reflexivity.
  - constructor.
  - vm_compute. discriminate.
Defined.

(** A key whose hash is zero is never found, whatever the file holds:
    the probe stops at the first slot whose hash is zero and no other
    slot has the hash of the key. *)
Lemma Get_loop_zero_hash cdb key tbl startingSlot v :
  forall fuel slot, Get_loop fuel cdb key 0 tbl startingSlot slot <> Ok (Some v).
Proof.
  induction fuel as [|fuel IH]; intros slot; [discriminate|].
  cbn [Get_loop].
  destruct (readTuple _ _) as [[slotHash offset]| |]; cbn [bind]; try discriminate.
  destruct (Z.eqb_spec slotHash 0) as [E|NE]; [discriminate|].
  destruct (_ =? startingSlot); [discriminate|apply IH].
Qed.

Lemma Get_zero_hash cdb key v :
  hash_of key = 0 -> snd (Get cdb key) <> Ok (Some v).
Proof.
  intros Hz. unfold Get.
  change (Sum64 (fst (Write (Reset (hasher cdb)) key))) with (hash_of key).
  rewrite Hz. destruct (_ =? 0); cbn [snd]; [discriminate|].
  apply Get_loop_zero_hash.
Qed.

(** The single entry of a key whose hash is zero lies in the slot 0 of
    subtable 0, with the offset of the first record. *)
Lemma zero_hash_single_slot k v data index cdb :
  Finalized [(k, v)] data index -> file_size [(k, v)] < 2 ^ 63 ->
  f_data (reader cdb) = data -> f_closed (reader cdb) = false ->
  header cdb = index -> hash_of (Some k) = 0 ->
  read_slot cdb 0 0 = Ok (0, headerSize).
Proof.
  intros Hfin Hsz Hdata Hopen Hheader Hz.
  destruct (fin_tables _ _ _ Hfin 0%nat ltac:(lia))
    as (es & sorted & pre & post & Hes & Hplace & Hidx & Hd).
  assert (Htab : in_table 0 [(k, v)] = [(k, v)]).
  { unfold in_table. rewrite filter_cons, filter_nil.
    rewrite decide_True; [reflexivity|]. unfold table_of. cbn [fst]. rewrite Hz. reflexivity. }
  rewrite Htab in Hes.
  apply Forall2_cons_inv_r in Hes as (e & es' & He & Hes' & ->).
  apply Forall2_nil_inv_r in Hes'. subst es'.
  destruct He as (Hh & pre' & post' & Hb & Ho). cbn [fst] in Hh. rewrite Hz in Hh.
  assert (Hpre : length pre' = 0%nat).
  { apply (f_equal (@length byte)) in Hb.
    unfold records_bytes in Hb. cbn [map concat] in Hb.
    rewrite !length_app in Hb. cbn [length] in Hb. lia. }
  rewrite Hpre in Ho. destruct e as [h o]. cbn [e_hash e_offset] in Hh, Ho. subst h o.
  cbv in Hplace. inversion Hplace; subst sorted. clear Hplace.
  unfold read_slot. rewrite Hheader, nth_lookup, Hidx.
  unfold default, from_option, id.
  change (readTuple (reader cdb)
            (u64 (headerSize + Z.of_nat (length pre) + u64 (16 * 0)))
          = Ok (e_hash (mkEntry 0 4096), e_offset (mkEntry 0 4096))).
  apply (readTuple_slot [(k, v)] data index cdb Hfin Hsz Hdata Hopen pre _ post 0
           (mkEntry 0 4096) Hd); [reflexivity|lia|].
  unfold wf_entry. simpl. lia.
Qed.

(** X21: a key whose hash is zero, put alone.  After the put and
    finalize its entry lies in the slot 0 of subtable 0 with the hash 0
    and the record offset [headerSize], which is not zero, and [Get] on
    the key returns the nil value. *)
Theorem zero_hash_put_not_found k v :
  hash_of (Some k) = 0 ->
  file_size [(k, v)] < 2 ^ 63 ->
  exists c1 c2, readers [(k, v)] c1 c2 /\
    forall c, c = c1 \/ c = c2 ->
      read_slot c 0 0 = Ok (0, headerSize) /\ headerSize <> 0
      /\ snd (Get c (Some k)) = Ok None.
Proof.
  intros Hz Hsz.
  destruct (runs_spec [(k, v)] Hsz) as (c1 & c2 & Hr & [F1 O1] & [F2 O2]).
  exists c1, c2. split; [exact Hr|].
  intros c [->| ->]; (split; [|split; [discriminate|]]).
  - exact (zero_hash_single_slot k v _ _ c1 F1 Hsz eq_refl O1 eq_refl Hz).
  - exact (Get_zero_hash_None _ _ _ c1 F1 Hsz eq_refl O1 eq_refl (Some k) Hz).
  - exact (zero_hash_single_slot k v _ _ c2 F2 Hsz eq_refl O2 eq_refl Hz).
  - exact (Get_zero_hash_None _ _ _ c2 F2 Hsz eq_refl O2 eq_refl (Some k) Hz).
Qed.

Lemma zero_hash_put_not_found_witness :
  hash_of (Some zero_key) = 0 /\
  file_size [(zero_key, bar)] < 2 ^ 63 /\
  exists c1 c2, readers [(zero_key, bar)] c1 c2 /\
    forall c, c = c1 \/ c = c2 ->
      read_slot c 0 0 = Ok (0, headerSize) /\ headerSize <> 0
      /\ snd (Get c (Some zero_key)) = Ok None.
Proof.
  split; [vm_compute; reflexivity|].
  split; [vm_compute; reflexivity|].
  apply (zero_hash_put_not_found zero_key bar); vm_compute; reflexivity.
Defined.

(** X22: [Get] never returns a value for a key whose hash is zero: on
    no reader at all, and on the readers of a run, whatever was put,
    the key itself included, it returns the nil value without an
    error. *)
Theorem zero_hash_key_never_found kvs key :
  file_size kvs < 2 ^ 63 ->
  hash_of key = 0 ->
  (forall cdb v, snd (Get cdb key) <> Ok (Some v))
  /\ exists c1 c2, readers kvs c1 c2
       /\ snd (Get c1 key) = Ok None /\ snd (Get c2 key) = Ok None.
Proof.
  intros Hsz Hz. split; [intros cdb v; apply Get_zero_hash; exact Hz|].
  destruct (runs_spec kvs Hsz) as (c1 & c2 & Hr & [F1 O1] & [F2 O2]).
  exists c1, c2. split; [exact Hr|]. split.
  - exact (Get_zero_hash_None _ _ _ c1 F1 Hsz eq_refl O1 eq_refl key Hz).
  - exact (Get_zero_hash_None _ _ _ c2 F2 Hsz eq_refl O2 eq_refl key Hz).
Qed.

Lemma zero_hash_key_never_found_witness :
  file_size [(foo, bar); (zero_key, bar)] < 2 ^ 63 /\
  hash_of (Some zero_key) = 0 /\
  (forall cdb v, snd (Get cdb (Some zero_key)) <> Ok (Some v))
  /\ exists c1 c2, readers [(foo, bar); (zero_key, bar)] c1 c2
       /\ snd (Get c1 (Some zero_key)) = Ok None
       /\ snd (Get c2 (Some zero_key)) = Ok None.
Proof.
  split; [vm_compute; reflexivity|].
  split; [vm_compute; reflexivity|].
  apply (zero_hash_key_never_found [(foo, bar); (zero_key, bar)] (Some zero_key));
    vm_compute; reflexivity.
Defined.
